(** * Stock-Sentiment-Analysis: the indicator and feature pipeline

    A shallow embedding of [StockSentimentAnalysis.py].

    Numbers.  The script computes on IEEE doubles held in pandas Series.
    Here a Series entry is an [fval]: an exact rational, one of the two
    infinities, or NaN.  Finite arithmetic is exact (no rounding) and the
    special values follow the IEEE rules the script relies on
    ([x / 0], [x + inf], [100 / inf], comparisons with NaN).  Signed zeros
    are not distinguished.

    External libraries.  The price download, the VADER sentiment score, the
    square root, the shuffled split and the fitted classifiers are
    parameters of the development. *)

From Stdlib Require Import QArith Qminmax Qabs Lqa Lia ZArith.
From stdpp Require Import gmap strings list fin_maps.

(* ===================================================================== *)
(** ** Series values *)
(* ===================================================================== *)

Inductive fval : Type :=
  | Fin (q : Q)
  | PInf
  | NInf
  | NaN.

(** Two values denote the same number (rationals up to [==]). *)
Definition feq (x y : fval) : Prop :=
  match x, y with
  | Fin a, Fin b => (a == b)%Q
  | PInf, PInf | NInf, NInf | NaN, NaN => True
  | _, _ => False
  end.

Infix "=f=" := feq (at level 70, no associativity).

Definition isna (x : fval) : bool :=
  match x with NaN => true | _ => false end.

Definition fneg (x : fval) : fval :=
  match x with
  | Fin q => Fin (- q)
  | PInf => NInf
  | NInf => PInf
  | NaN => NaN
  end.

Definition fadd (x y : fval) : fval :=
  match x, y with
  | NaN, _ | _, NaN => NaN
  | Fin a, Fin b => Fin (a + b)
  | PInf, NInf | NInf, PInf => NaN
  | PInf, _ | _, PInf => PInf
  | NInf, _ | _, NInf => NInf
  end.

Definition fsub (x y : fval) : fval := fadd x (fneg y).

(** Sign of a rational: the infinity [inf * q] or [q / 0] has this sign. *)
Definition signed_inf (c : comparison) : fval :=
  match c with Gt => PInf | Lt => NInf | Eq => NaN end.

Definition fmul (x y : fval) : fval :=
  match x, y with
  | NaN, _ | _, NaN => NaN
  | Fin a, Fin b => Fin (a * b)
  | Fin a, PInf | PInf, Fin a => signed_inf (a ?= 0)%Q
  | Fin a, NInf | NInf, Fin a => signed_inf (0 ?= a)%Q
  | PInf, PInf | NInf, NInf => PInf
  | PInf, NInf | NInf, PInf => NInf
  end.

Definition fdiv (x y : fval) : fval :=
  match x, y with
  | NaN, _ | _, NaN => NaN
  | Fin a, Fin b =>
      if Qeq_bool b 0 then signed_inf (a ?= 0)%Q else Fin (a / b)
  | Fin _, (PInf | NInf) => Fin 0
  | PInf, Fin b => if Qle_bool 0 b then PInf else NInf
  | NInf, Fin b => if Qle_bool 0 b then NInf else PInf
  | (PInf | NInf), (PInf | NInf) => NaN
  end.

(** [x > y] and [x < y] on Series entries: false as soon as one is NaN. *)
Definition fgt (x y : fval) : bool :=
  match x, y with
  | NaN, _ | _, NaN => false
  | Fin a, Fin b => negb (Qle_bool a b)
  | PInf, PInf | NInf, NInf => false
  | PInf, _ | _, NInf => true
  | _, PInf | NInf, _ => false
  end.

Definition flt (x y : fval) : bool := fgt y x.

(* ===================================================================== *)
(** ** Series operations (pandas) *)
(* ===================================================================== *)

Abbreviation Series := (list fval).

Definition Qsum (qs : list Q) : Q := foldr Qplus 0%Q qs.

(** [s.shift(1)]: every entry moves one row down, the first row is NaN. *)
Definition shift1 (s : Series) : Series := take (length s) (NaN :: s).

(** [s.diff()] is [s - s.shift(1)]. *)
Definition diff (s : Series) : Series := zip_with fsub s (shift1 s).

(** [s.pct_change()] is [s / s.shift(1) - 1]. *)
Definition pct_change (s : Series) : Series :=
  zip_with (fun x p => fsub (fdiv x p) (Fin 1)) s (shift1 s).

(** [s.where(cond, other)]: keep the entry where [cond] holds. *)
Definition where_ (cond : fval -> bool) (other : fval) (s : Series) : Series :=
  (fun x => if cond x then x else other) <$> s.

(** The finite entries of a window; [None] when one is NaN (or infinite:
    pandas turns infinities into NaN before it rolls). *)
Fixpoint finite_values (xs : list fval) : option (list Q) :=
  match xs with
  | [] => Some []
  | Fin q :: rest => cons q <$> finite_values rest
  | _ :: _ => None
  end.

(** The trailing window of [w] rows that ends at row [i]. *)
Definition window_at (w i : nat) (s : Series) : Series :=
  take w (drop (i + 1 - w) s).

(** [s.rolling(window=w).agg()], with the default [min_periods = w]: NaN
    until [w] rows are available and whenever the window holds a NaN. *)
Definition rolling (w : nat) (agg : list Q -> fval) (s : Series) : Series :=
  imap (fun i _ =>
          if (i + 1 <? w)%nat then NaN
          else match finite_values (window_at w i s) with
               | Some qs => agg qs
               | None => NaN
               end) s.

Definition mean (qs : list Q) : fval :=
  match qs with
  | [] => NaN
  | _ => Fin (Qsum qs / inject_Z (Z.of_nat (length qs)))
  end.

(** Exponentially weighted mean, [adjust=False]:
    [y0 = x0], [y_t = (1 - alpha) * y_(t-1) + alpha * x_t]. *)
Fixpoint ewm_from (alpha prev : Q) (xs : list Q) : list Q :=
  match xs with
  | [] => []
  | x :: rest =>
      let y := ((1 - alpha) * prev + alpha * x)%Q in
      y :: ewm_from alpha y rest
  end.

Definition ewm_mean (span : Z) (xs : list Q) : list Q :=
  let alpha := (2 / (inject_Z span + 1))%Q in
  match xs with
  | [] => []
  | x0 :: rest => x0 :: ewm_from alpha x0 rest
  end.

(* ===================================================================== *)
(** ** The price table *)
(* ===================================================================== *)

(** One row of the table [yf.download] returns, indexed by [Date]. The
    downloaded columns hold finite numbers. *)
Record PriceBar : Type := mkBar {
  Date : Z;
  Open : Q;
  High : Q;
  Low : Q;
  Close : Q;
  Adj_Close : Q;
  Volume : Q
}.

(** [data['Close']] *)
Definition close_column (data : list PriceBar) : list Q := Close <$> data.

(** A row of the table after [preprocess_data] has added its columns. *)
Record StockRow : Type := mkRow {
  bar : PriceBar;
  Returns : fval;
  Direction : Z;
  SMA : fval;
  RSI : fval;
  BB_Upper : fval;
  BB_Lower : fval;
  MACD : fval;
  Signal_Line : fval
}.

(** [row.isna().any()] over the columns of a [StockRow]; the downloaded
    columns and the integer [Direction] are never NaN. *)
Definition row_has_na (r : StockRow) : bool :=
  isna (Returns r) || isna (SMA r) || isna (RSI r) || isna (BB_Upper r)
  || isna (BB_Lower r) || isna (MACD r) || isna (Signal_Line r).

(** [data.dropna()] *)
Definition dropna (rows : list StockRow) : list StockRow :=
  filter (fun r => row_has_na r = false) rows.

(** [np.where(returns > 0, 1, -1)] *)
Definition direction_of (returns : Series) : list Z :=
  (fun r => if fgt r (Fin 0) then 1%Z else (-1)%Z) <$> returns.

Section Indicators.

(** [numpy]'s square root on non-negative finite numbers. *)
Variable np_sqrt : Q -> Q.

(** The sample standard deviation ([ddof = 1]) of a window. *)
Definition std (qs : list Q) : fval :=
  match qs with
  | [] | [_] => NaN
  | _ =>
      let n := inject_Z (Z.of_nat (length qs)) in
      let m := (Qsum qs / n)%Q in
      Fin (np_sqrt (Qsum ((fun x => (x - m) * (x - m))%Q <$> qs) / (n - 1)))
  end.

Definition sma (data : list PriceBar) (window : nat) : Series :=
  rolling window mean (Fin <$> close_column data).

Definition rsi (data : list PriceBar) (window : nat) : Series :=
  let delta := diff (Fin <$> close_column data) in
  let gain := where_ (fun d => fgt d (Fin 0)) (Fin 0) delta in
  let loss := fneg <$> where_ (fun d => flt d (Fin 0)) (Fin 0) delta in
  let avg_gain := rolling window mean gain in
  let avg_loss := rolling window mean loss in
  let rs := zip_with fdiv avg_gain avg_loss in
  (fun r => fsub (Fin 100) (fdiv (Fin 100) (fadd (Fin 1) r))) <$> rs.

Definition bollinger_bands (data : list PriceBar) (window : nat)
  : Series * Series :=
  let sma := rolling window mean (Fin <$> close_column data) in
  let std_dev := rolling window std (Fin <$> close_column data) in
  let upper_band := zip_with fadd sma (fmul (Fin 2) <$> std_dev) in
  let lower_band := zip_with fsub sma (fmul (Fin 2) <$> std_dev) in
  (upper_band, lower_band).

Definition macd (data : list PriceBar) : list Q * list Q :=
  let exp12 := ewm_mean 12 (close_column data) in
  let exp26 := ewm_mean 26 (close_column data) in
  let macd := zip_with Qminus exp12 exp26 in
  let signal_line := ewm_mean 9 macd in
  (macd, signal_line).

(** The market data source: ticker, start date, end date. *)
Variable yf_download : string -> string -> string -> list PriceBar.

(** Column assignment aligns on the index: row [i] takes entry [i]. *)
Definition at_row (s : Series) (i : nat) : fval := nth i s NaN.

(** The table with every derived column added, before [dropna]. *)
Definition with_indicators (data : list PriceBar) : list StockRow :=
  let returns := pct_change (Fin <$> close_column data) in
  let direction := direction_of returns in
  let sma_ := sma data 14 in
  let rsi_ := rsi data 14 in
  let bb := bollinger_bands data 14 in
  let md := macd data in
  imap (fun i b =>
          {| bar := b;
             Returns := at_row returns i;
             Direction := nth i direction 0%Z;
             SMA := at_row sma_ i;
             RSI := at_row rsi_ i;
             BB_Upper := at_row (fst bb) i;
             BB_Lower := at_row (snd bb) i;
             MACD := at_row (Fin <$> fst md) i;
             Signal_Line := at_row (Fin <$> snd md) i |}) data.

Definition preprocess_data (stock_ticker start_date end_date : string)
  : list StockRow :=
  let data := yf_download stock_ticker start_date end_date in
  dropna (with_indicators data).

End Indicators.

(* ===================================================================== *)
(** ** News, merge and the feature matrix *)
(* ===================================================================== *)

Record NewsRow : Type := mkNews {
  news_Date : Z;
  Headline : string
}.

(** A row of [merged_data]; [prepare_features] adds the [Sentiment]
    column to it in place. *)
Record MergedRow : Type := mkMerged {
  stock : StockRow;
  headline : string;
  Sentiment : fval
}.

(** [stock_data.merge(news_data, on='Date', how='inner')]: one row per
    matching pair, in the order of the left table. *)
Definition merge_on_Date (left : list StockRow) (right : list NewsRow)
  : list (StockRow * string) :=
  s ← left;
  n ← filter (fun n => news_Date n = Date (bar s)) right;
  [(s, Headline n)].

(** A table of numbers with named columns. *)
Record DataFrame (A : Type) : Type := mkFrame {
  columns : list string;
  values : list (list A)
}.
Arguments mkFrame {A} _ _.
Arguments columns {A} _.
Arguments values {A} _.

(** The numeric columns of a merged row, by name. *)
Definition row_dict (r : MergedRow) : gmap string fval :=
  let b := bar (stock r) in
  list_to_map
    [("Open", Fin (Open b)); ("High", Fin (High b)); ("Low", Fin (Low b));
     ("Close", Fin (Close b)); ("Adj Close", Fin (Adj_Close b));
     ("Volume", Fin (Volume b)); ("Returns", Returns (stock r));
     ("Direction", Fin (inject_Z (Direction (stock r))));
     ("SMA", SMA (stock r));
     ("RSI", RSI (stock r)); ("BB_Upper", BB_Upper (stock r));
     ("BB_Lower", BB_Lower (stock r)); ("MACD", MACD (stock r));
     ("Signal_Line", Signal_Line (stock r)); ("Sentiment", Sentiment r)].

(** The feature row of a merged row, in the order of the training
    columns. *)
Definition feature_row (m : MergedRow) : list fval :=
  [Sentiment m; SMA (stock m); RSI (stock m); BB_Upper (stock m);
   BB_Lower (stock m); MACD (stock m); Signal_Line (stock m)].

(** [data[cols]]: the named columns, in the order asked for; [None] is
    the [KeyError] of a missing column. *)
Definition select_columns (cols : list string) (data : list MergedRow)
  : option (DataFrame fval) :=
  mkFrame cols <$> mapM (fun r => mapM (fun c => row_dict r !! c) cols) data.

Definition feature_columns : list string :=
  ["Sentiment"; "SMA"; "RSI"; "BB_Upper"; "BB_Lower"; "MACD"; "Signal_Line"].

(** [df[c].iloc[-1]]: the last entry of column [c]; [None] is the
    [KeyError] of a missing column or the [IndexError] of an empty table. *)
Definition index_of (c : string) (cols : list string) : option nat :=
  fst <$> list_find (fun c' => c' = c) cols.

Definition column_last {A} (df : DataFrame A) (c : string) : option A :=
  j ← index_of c (columns df);
  row ← last (values df);
  row !! j.

(* ===================================================================== *)
(** ** MinMaxScaler (scikit-learn), feature range (0, 1) *)
(* ===================================================================== *)

Record MinMaxScaler : Type := mkScaler {
  data_min_ : list Q;
  data_max_ : list Q;
  data_range_ : list Q;
  scale_ : list Q;
  min_ : list Q
}.

(** Machine epsilon of a double. *)
Definition float_eps : Q := 1 # (2 ^ 52).

(** [_handle_zeros_in_scale]: a range below [10 * eps] counts as constant
    and is replaced by 1. *)
Definition handle_zeros_in_scale (range : Q) : Q :=
  if Qle_bool (10 * float_eps) range then range else 1%Q.

(** [check_array]: a matrix of finite numbers, [None] for the
    [ValueError] on an infinity (a NaN cannot reach the scaler: [dropna]
    removed every row that held one). *)
Definition check_array (X : list (list fval)) : option (list (list Q)) :=
  mapM finite_values X.

(** [scaler.fit(X)]; [None] is the [ValueError] on a table with no row. *)
Definition MinMaxScaler_fit (X : list (list Q)) : option MinMaxScaler :=
  match X with
  | [] => None
  | row0 :: rest =>
      let data_min := foldl (zip_with Qmin) row0 rest in
      let data_max := foldl (zip_with Qmax) row0 rest in
      let data_range := zip_with Qminus data_max data_min in
      let scale := (fun r => (1 - 0) / handle_zeros_in_scale r)%Q <$> data_range in
      let min := zip_with (fun m s => 0 - m * s)%Q data_min scale in
      Some (mkScaler data_min data_max data_range scale min)
  end.

(** [X *= scale_; X += min_] on one row. *)
Definition transform_row (sc : MinMaxScaler) (row : list Q) : list Q :=
  zip_with Qplus (zip_with Qmult row (scale_ sc)) (min_ sc).

(** [scaler.transform(X)] *)
Definition MinMaxScaler_transform (sc : MinMaxScaler) (X : list (list Q))
  : list (list Q) :=
  transform_row sc <$> X.

(* ===================================================================== *)
(** ** [main] and the training loop *)
(* ===================================================================== *)

(** A fitted classifier: its [predict] on a matrix of rows. *)
Definition Classifier := list (list Q) -> list Z.

(** What one pass of the training loop prints. *)
Record ModelReport : Type := mkReport {
  report_model : string;
  report_accuracy : Q;
  report_predictions : list Z;
  report_scaled_input : list (list Q);
  report_movement : string
}.

(** The names [main] binds, as they stand when its body ends. *)
Record MainLocals : Type := mkLocals {
  stock_data : list StockRow;
  news_data : list NewsRow;
  merged_data : list MergedRow;
  scaler : MinMaxScaler;
  X_scaled : list (list Q);
  X : DataFrame Q;
  y : list Z;
  X_train : DataFrame Q;
  X_test : DataFrame Q;
  y_train : list Z;
  y_test : list Z
}.

(** The keys of the [models] dictionary, in insertion order. *)
Definition models : list string :=
  ["Logistic Regression"; "Random Forest"; "Support Vector Machine";
   "XGBoost"; "K-Nearest Neighbors"; "Decision Tree"; "AdaBoost";
   "Neural Network (MLP)"].

(** [accuracy_score(y_true, y_pred)]: the share of equal labels. *)
Definition accuracy_score (y_true y_pred : list Z) : Q :=
  inject_Z (Z.of_nat (length (filter (fun p => p.1 = p.2) (zip y_true y_pred))))
  / inject_Z (Z.of_nat (length y_true)).

(** [_safe_indexing]: the rows at the given positions. *)
Definition take_rows {A} (rows : list A) (idx : list nat) : list A :=
  omap (fun i => rows !! i) idx.

Section Program.

Variable np_sqrt : Q -> Q.
Variable yf_download : string -> string -> string -> list PriceBar.

(** [sentiment_analyzer.polarity_scores(text)['compound']] *)
Variable compound : string -> Q.

(** [datetime.now().strftime('%Y-%m-%d')] *)
Variable today : string.

(** [RandomState(42).permutation(n)], the shuffle behind
    [train_test_split]. *)
Variable permutation : nat -> list nat.

(** [GridSearchCV(model, params, cv=10).fit(X, y).best_estimator_] for
    the model stored under a key of [models]. *)
Variable grid_search_best :
  string -> DataFrame Q -> list Z -> Classifier.

Definition prepare_features (data : list (StockRow * string))
  : list MergedRow * option (DataFrame fval) :=
  let data := (fun p => mkMerged p.1 p.2 (Fin (compound p.2))) <$> data in
  let features := select_columns feature_columns data in
  (data, features).

(** [train_test_split(X, y, test_size=0.2, random_state=42)]: the first
    [ceil(0.2 * n)] shuffled positions are the test rows, the others the
    training rows; [None] is the [ValueError] on an empty training set. *)
Definition train_test_split {A B} (X : list A) (y : list B)
  : option (list A * list A * list B * list B) :=
  let n := length X in
  let n_test := ((n + 4) / 5)%nat in
  let n_train := (n - n_test)%nat in
  if (n_train =? 0)%nat then None
  else
    let perm := permutation n in
    let test := take n_test perm in
    let train := take n_train (drop n_test perm) in
    Some (take_rows X train, take_rows X test,
          take_rows y train, take_rows y test).

Definition main (stock_ticker news_headline : string) : option MainLocals :=
  let start_date := "1993-02-01" in
  let end_date := today in
  let stock_data :=
    preprocess_data np_sqrt yf_download stock_ticker start_date end_date in
  let news_data :=
    (fun r => mkNews (Date (bar r)) "Sample headline") <$> stock_data in
  let merged_data :=
    filter (fun p => row_has_na p.1 = false)
           (merge_on_Date stock_data news_data) in
  let '(merged_data, features) := prepare_features merged_data in
  X ← features;
  X_values ← check_array (values X);
  scaler ← MinMaxScaler_fit X_values;
  let X_scaled := MinMaxScaler_transform scaler X_values in
  let X := mkFrame (columns X) X_scaled in
  let y := (fun r => Direction (stock r)) <$> merged_data in
  '(X_train, X_test, y_train, y_test) ← train_test_split (values X) y;
  Some {| stock_data := stock_data; news_data := news_data;
          merged_data := merged_data; scaler := scaler;
          X_scaled := X_scaled; X := X; y := y;
          X_train := mkFrame (columns X) X_train;
          X_test := mkFrame (columns X) X_test;
          y_train := y_train; y_test := y_test |}.

Definition train_and_evaluate_model (model : string)
    (X_train : DataFrame Q) (y_train : list Z)
    (X_test : DataFrame Q) (y_test : list Z)
  : Q * list Z * Classifier :=
  let best_model := grid_search_best model X_train y_train in
  let y_pred := best_model (values X_test) in
  let accuracy := accuracy_score y_test y_pred in
  (accuracy, y_pred, best_model).

(** The row handed to [scaler.transform] at prediction time. *)
Definition prediction_row (sentiment : Q) (X_test : DataFrame Q)
  : option (list Q) :=
  sma_ ← column_last X_test "SMA";
  rsi_ ← column_last X_test "RSI";
  bb_upper ← column_last X_test "BB_Upper";
  bb_lower ← column_last X_test "BB_Lower";
  macd_ ← column_last X_test "MACD";
  signal_line ← column_last X_test "Signal_Line";
  Some [sentiment; sma_; rsi_; bb_upper; bb_lower; macd_; signal_line].

(** The body of the training loop for one entry of [models], reading the
    names it uses from [main]'s locals. *)
Definition loop_body (L : MainLocals) (news_headline model_name : string)
  : option ModelReport :=
  let '(accuracy, y_pred, best_model) :=
    train_and_evaluate_model model_name (X_train L) (y_train L)
                             (X_test L) (y_test L) in
  let sentiment := compound news_headline in
  row ← prediction_row sentiment (X_test L);
  let scaled_input := MinMaxScaler_transform (scaler L) [row] in
  let prediction := best_model scaled_input in
  p0 ← prediction !! 0%nat;
  let movement := if (p0 >? 0)%Z then "up" else "down" in
  Some (mkReport model_name accuracy y_pred scaled_input movement).

Definition training_loop (L : MainLocals) (news_headline : string)
  : option (list ModelReport) :=
  mapM (loop_body L news_headline) models.

End Program.

(* ===================================================================== *)
(** ** Name binding when the script runs *)
(* ===================================================================== *)

(** The script as the interpreter runs it, statement by statement, kept to
    what decides whether it gets through: which names each statement reads
    (in evaluation order) and which it binds, the lines read from standard
    input and the calls to [print].  A call of one of the script's own
    helpers or of a library is one step. *)

Inductive PyError : Type :=
  | NameError (name : string)
  | EOFError.

Record Interp : Type := mkInterp {
  globals : gset string;        (* the module's namespace *)
  frames : list (gset string);  (* local namespaces of the running calls *)
  stdin : list string;
  stdout : list string
}.

Definition Exec (A : Type) : Type := Interp -> (PyError + A) * Interp.

Definition ret {A} (a : A) : Exec A := fun st => (inr a, st).

Definition raise {A} (e : PyError) : Exec A := fun st => (inl e, st).

Definition bind {A B} (m : Exec A) (k : A -> Exec B) : Exec B := fun st =>
  match m st with
  | (inl e, st') => (inl e, st')
  | (inr a, st') => k a st'
  end.

#[global] Instance Exec_ret : MRet Exec := @ret.
#[global] Instance Exec_bind : MBind Exec := fun A B k m => bind m k.

(** The built-in functions of Python 3. *)
Definition builtins : gset string :=
  list_to_set
    ["abs"; "aiter"; "all"; "anext"; "any"; "ascii"; "bin"; "bool";
     "breakpoint"; "bytearray"; "bytes"; "callable"; "chr"; "classmethod";
     "compile"; "complex"; "delattr"; "dict"; "dir"; "divmod"; "enumerate";
     "eval"; "exec"; "filter"; "float"; "format"; "frozenset"; "getattr";
     "globals"; "hasattr"; "hash"; "help"; "hex"; "id"; "input"; "int";
     "isinstance"; "issubclass"; "iter"; "len"; "list"; "locals"; "map";
     "max"; "memoryview"; "min"; "next"; "object"; "oct"; "open"; "ord";
     "pow"; "print"; "property"; "range"; "repr"; "reversed"; "round";
     "set"; "setattr"; "slice"; "sorted"; "staticmethod"; "str"; "sum";
     "super"; "tuple"; "type"; "vars"; "zip"; "__import__"].


(** Reading a name: the innermost local namespace, then the module's,
    then the built-ins.  (A function reads its own variables from its
    namespace only; [main] assigns each of its variables before it reads
    it, so the fall-through never decides for them.) *)
Definition bound (x : string) (st : Interp) : bool :=
  match frames st with
  | locals :: _ => bool_decide (x ∈ locals)
  | [] => false
  end
  || bool_decide (x ∈ globals st) || bool_decide (x ∈ builtins).

Definition load (x : string) : Exec unit := fun st =>
  if bound x st then (inr (), st) else (inl (NameError x), st).

(** Binding a name: in the running call's namespace, or in the module's
    when no call is running. *)
Definition store (x : string) : Exec unit := fun st =>
  match frames st with
  | locals :: outer =>
      (inr (), mkInterp (globals st) (({[x]} ∪ locals) :: outer)
                        (stdin st) (stdout st))
  | [] =>
      (inr (), mkInterp ({[x]} ∪ globals st) [] (stdin st) (stdout st))
  end.

Fixpoint loads (xs : list string) : Exec unit :=
  match xs with
  | [] => ret ()
  | x :: rest => load x ;; loads rest
  end.

Fixpoint stores (xs : list string) : Exec unit :=
  match xs with
  | [] => ret ()
  | x :: rest => store x ;; stores rest
  end.



(** A call: the parameters start the callee's namespace, which is dropped
    when the body ends. *)
Definition call (params : list string) (body : Exec unit) : Exec unit :=
  fun st =>
    let entered :=
      mkInterp (globals st) (list_to_set params :: frames st)
               (stdin st) (stdout st) in
    match body entered with
    | (inl e, st') => (inl e, st')
    | (inr _, st') =>
        (inr (), mkInterp (globals st') (tail (frames st'))
                          (stdin st') (stdout st'))
    end.




(** Lines 72-98, the body of [main]. *)
Definition main_body : Exec unit :=
  load "SentimentIntensityAnalyzer" ;; store "sentiment_analyzer" ;;
  store "start_date" ;;
  load "datetime" ;; store "end_date" ;;
  loads ["preprocess_data"; "stock_ticker"; "start_date"; "end_date"] ;;
  store "stock_data" ;;
  loads ["pd"; "stock_data"; "len"; "stock_data"] ;; store "news_data" ;;
  loads ["stock_data"; "news_data"] ;; store "merged_data" ;;
  loads ["prepare_features"; "merged_data"; "sentiment_analyzer"] ;;
  store "X" ;;
  load "MinMaxScaler" ;; store "scaler" ;;
  loads ["scaler"; "X"] ;; store "X_scaled" ;;
  loads ["pd"; "X_scaled"; "X"; "X"] ;; store "X" ;;
  load "merged_data" ;; store "y" ;;
  loads ["train_test_split"; "X"; "y"] ;;
  stores ["X_train"; "X_test"; "y_train"; "y_test"].












(* ===================================================================== *)
(** ** Reference definitions of the indicators *)
(* ===================================================================== *)

(** The arithmetic mean of the [w] closes that end at row [i]. *)
Definition trailing_mean (closes : list Q) (w i : nat) : Q :=
  Qsum ((fun k => nth (i + 1 - w + k) closes 0%Q) <$> seq 0 w)
  / inject_Z (Z.of_nat w).

(** The exponential moving average seeded with the first value:
    [EMA(0) = x_0], [EMA(t) = (1 - alpha) * EMA(t-1) + alpha * x_t]. *)
Fixpoint EMA (alpha : Q) (xs : list Q) (t : nat) : Q :=
  match t with
  | O => nth 0 xs 0%Q
  | S t' => ((1 - alpha) * EMA alpha xs t' + alpha * nth t xs 0)%Q
  end.

(** The smoothing factor of a span: [2 / (span + 1)]. *)
Definition alpha_of_span (span : Z) : Q := 2 / (inject_Z span + 1).

(** [q ^ n] *)
Fixpoint Qpow (q : Q) (n : nat) : Q :=
  match n with
  | O => 1%Q
  | S n' => (q * Qpow q n')%Q
  end.

(** The same average written out: the seed keeps the weight
    [(1 - alpha)^t] and the weights are not renormalised. *)
Definition EMA_closed_form (alpha : Q) (xs : list Q) (t : nat) : Q :=
  (Qpow (1 - alpha) t * nth 0 xs 0
   + Qsum ((fun k => alpha * Qpow (1 - alpha) (t - k) * nth k xs 0)
             <$> seq 1 t))%Q.

(** A finite, non-negative entry. *)
Definition nonneg_fin (v : fval) : Prop :=
  match v with Fin q => (0 <= q)%Q | _ => False end.

(** NaN, or a finite non-negative entry. *)
Definition nonneg_or_nan (v : fval) : Prop :=
  match v with Fin q => (0 <= q)%Q | NaN => True | _ => False end.

(** The two rolling averages inside [rsi], and its last line on one
    pair of them. *)
Definition rsi_avg_gain (data : list PriceBar) (window : nat) : Series :=
  rolling window mean
    (where_ (fun d => fgt d (Fin 0)) (Fin 0) (diff (Fin <$> close_column data))).

Definition rsi_avg_loss (data : list PriceBar) (window : nat) : Series :=
  rolling window mean
    (fneg <$> where_ (fun d => flt d (Fin 0)) (Fin 0)
                     (diff (Fin <$> close_column data))).

Definition rsi_of (avg_gain avg_loss : fval) : fval :=
  fsub (Fin 100) (fdiv (Fin 100) (fadd (Fin 1) (fdiv avg_gain avg_loss))).

(** The raw feature matrix of a merged table, as [main] hands it to the
    scaler. *)
Definition feature_matrix (data : list MergedRow) : option (list (list Q)) :=
  X ← select_columns feature_columns data;
  check_array (values X).

(** Two scalers hold the same per-column minimum and maximum. *)
Definition same_bounds (a b : MinMaxScaler) : bool :=
  bool_decide (length (data_min_ a) = length (data_min_ b))
  && forallb (fun p => Qeq_bool p.1 p.2) (zip (data_min_ a) (data_min_ b))
  && forallb (fun p => Qeq_bool p.1 p.2) (zip (data_max_ a) (data_max_ b)).

(** The raw rows behind the training split: the rows of the feature
    matrix at the positions [train_test_split] assigns to training. *)
Definition training_rows_raw (permutation : nat -> list nat)
    (L : MainLocals) : option (list (list Q)) :=
  raw ← feature_matrix (merged_data L);
  let n := length raw in
  let n_test := ((n + 4) / 5)%nat in
  Some (take_rows raw (take (n - n_test) (drop n_test (permutation n)))).

(* ===================================================================== *)
(** ** Further reference definitions *)
(* ===================================================================== *)

Section MergedTable.

Variable np_sqrt : Q -> Q.
Variable yf_download : string -> string -> string -> list PriceBar.
Variable today : string.

(** The table [main] builds before it prepares the features:
    [stock_data.merge(news_data, on='Date', how='inner').dropna()]. *)
Definition merged_table (stock_ticker : string) : list (StockRow * string) :=
  let stock_data :=
    preprocess_data np_sqrt yf_download stock_ticker "1993-02-01" today in
  let news_data :=
    (fun r => mkNews (Date (bar r)) "Sample headline") <$> stock_data in
  filter (fun p => row_has_na p.1 = false)
         (merge_on_Date stock_data news_data).

(** [sentiment_analyzer.polarity_scores(text)['compound']] *)
Variable compound : string -> Q.

(** A row of the merged table once [prepare_features] has added its
    [Sentiment] entry. *)
Definition scored (p : StockRow * string) : MergedRow :=
  mkMerged p.1 p.2 (Fin (compound p.2)).

End MergedTable.

(** A finite entry. *)
Definition is_fin (v : fval) : Prop :=
  match v with Fin _ => True | _ => False end.

(** A piece of script that, run inside a call, leaves the module's
    namespace and the callers' namespaces as they are. *)
Definition keeps_module (m : Exec unit) : Prop :=
  forall st, frames st <> [] ->
    globals (snd (m st)) = globals st
    /\ tail (frames (snd (m st))) = tail (frames st)
    /\ frames (snd (m st)) <> [].

(* ===================================================================== *)
(** ** Sample inputs *)
(* ===================================================================== *)

(** A square root on the rationals, rounded down to a multiple of
    [2^-10]: one admissible instance of [np_sqrt]. *)
Definition sqrt_floor (q : Q) : Q :=
  Z.sqrt (Qnum q * Z.pos (Qden q) * 2 ^ 20) # (Qden q * 2 ^ 10).

(** A price table with the given closing prices on consecutive days. *)
Definition bars_of (closes : list Z) : list PriceBar :=
  imap (fun i c =>
          let p := inject_Z c in
          mkBar (Z.of_nat i) p p p p p 1000) closes.

Definition sample_closes : list Z :=
  [10; 11; 12; 11; 13; 14; 15; 14; 16; 17; 18; 17; 19; 20; 21; 20]%Z.

Definition sample_download (_ _ _ : string) : list PriceBar :=
  bars_of sample_closes.

(** Sixteen closes that only rise: no loss in any window. *)
Definition rising_closes : list Z :=
  [10; 11; 12; 13; 14; 15; 16; 17; 18; 19; 20; 21; 22; 23; 24; 25]%Z.

(** A sentiment scorer, a shuffle and a classifier to run [main] with. *)
Definition sample_compound (_ : string) : Q := 1 # 2.

Definition sample_permutation (n : nat) : list nat := seq 0 n.

Definition sample_grid_search (_ : string) (_ : DataFrame Q) (_ : list Z)
  : Classifier :=
  fun rows => (fun _ => 1%Z) <$> rows.

Abbreviation sample_main :=
  (main sqrt_floor sample_download sample_compound "2024-01-01"
        sample_permutation "AAPL" "good news").

(** Fifteen bars: two rows survive [dropna], so the split puts one row in
    the test set and one in the training set. *)
Definition short_download (_ _ _ : string) : list PriceBar :=
  bars_of (take 15 sample_closes).

Definition short_main (perm : list nat) : option MainLocals :=
  main sqrt_floor short_download sample_compound "2024-01-01"
       (fun _ => perm) "AAPL" "good news".

(** Does fitting the scaler on the training rows alone give other bounds
    than the scaler [main] keeps? *)
Definition training_only_fit_differs (perm : list nat) : bool :=
  match short_main perm with
  | Some L =>
      match training_rows_raw (fun _ => perm) L ≫= MinMaxScaler_fit with
      | Some train_only =>
          bool_decide (length (values (X_test L)) = 1%nat)
          && negb (same_bounds train_only (scaler L))
      | None => false
      end
  | None => false
  end.



(** Sixteen closes that never move. *)
Definition flat_closes : list Z := replicate 16 10%Z.

(** Fourteen bars: one short of the fifteen [main] needs at least. *)
Definition too_short_download (_ _ _ : string) : list PriceBar :=
  bars_of (take 14 sample_closes).


(** Are the closes of a table all between [lo] and [hi]? *)
Definition closes_between (lo hi : Q) (data : list PriceBar) : bool :=
  forallb (fun b => Qle_bool lo (Close b) && Qle_bool (Close b) hi) data.

(* ===================================================================== *)
(** ** Facts about Series operations *)
(* ===================================================================== *)

Lemma finite_values_Fin (qs : list Q) : finite_values (Fin <$> qs) = Some qs.
Proof.
  induction qs as [|q qs IH]; csimpl; [done|]. by rewrite IH.
Qed.

Lemma window_at_fmap {A} (f : A -> fval) (w i : nat) (xs : list A) :
  window_at w i (f <$> xs) = f <$> take w (drop (i + 1 - w) xs).
Proof. unfold window_at. by rewrite fmap_take, fmap_drop. Qed.

Lemma length_rolling (w : nat) agg (s : Series) :
  length (rolling w agg s) = length s.
Proof. unfold rolling. by rewrite length_imap. Qed.

(** Before [w] rows are available the rolling aggregate is NaN. *)
Lemma rolling_warm_up (w : nat) agg (s : Series) (i : nat) :
  (i + 1 < w)%nat -> (i < length s)%nat -> rolling w agg s !! i = Some NaN.
Proof.
  intros Hw Hi. unfold rolling. rewrite list_lookup_imap.
  destruct (lookup_lt_is_Some_2 s i Hi) as [x ->]. simpl.
  destruct (Nat.ltb_spec (i + 1) w); [done | lia].
Qed.

(** On a column of finite numbers the rolling aggregate at a full window
    is the aggregate of the [w] entries that end at row [i]. *)
Lemma rolling_full_window (w : nat) agg (qs : list Q) (i : nat) :
  (w <= i + 1)%nat -> (i < length qs)%nat ->
  rolling w agg (Fin <$> qs) !! i = Some (agg (take w (drop (i + 1 - w) qs))).
Proof.
  intros Hw Hi. unfold rolling. rewrite list_lookup_imap.
  destruct (lookup_lt_is_Some_2 (Fin <$> qs) i) as [x ->];
    [by rewrite length_fmap|]. simpl.
  destruct (Nat.ltb_spec (i + 1) w); [lia|].
  by rewrite window_at_fmap, finite_values_Fin.
Qed.

(** The trailing window, entry by entry. *)
Lemma trailing_window_entries (w i : nat) (qs : list Q) :
  (w <= i + 1)%nat -> (i < length qs)%nat ->
  take w (drop (i + 1 - w) qs)
  = (fun k => nth (i + 1 - w + k) qs 0%Q) <$> seq 0 w.
Proof.
  intros Hw Hi. apply list_eq. intros k.
  rewrite list_lookup_fmap, lookup_take, lookup_drop.
  destruct (decide (k < w)%nat) as [Hk|Hk].
  - rewrite lookup_seq_lt by done. simpl.
    destruct (nth_lookup_or_length qs (i + 1 - w + k) 0%Q) as [->|?];
      [done | lia].
  - by rewrite lookup_seq_ge by lia.
Qed.

Lemma mean_nonempty (qs : list Q) :
  qs <> [] -> mean qs = Fin (Qsum qs / inject_Z (Z.of_nat (length qs))).
Proof. by destruct qs. Qed.

Lemma shift1_lookup_0 (s : Series) :
  (0 < length s)%nat -> shift1 s !! 0%nat = Some NaN.
Proof. destruct s; simpl; [lia | done]. Qed.

Lemma shift1_lookup_S (s : Series) (i : nat) :
  (S i < length s)%nat -> shift1 s !! S i = s !! i.
Proof.
  intros Hi. unfold shift1. rewrite lookup_take_lt by done. done.
Qed.

Lemma length_shift1 (s : Series) : length (shift1 s) = length s.
Proof. unfold shift1. rewrite length_take. simpl. lia. Qed.

Lemma fsub_NaN_l (y : fval) : fsub NaN y = NaN.
Proof. by destruct y. Qed.

Lemma fdiv_NaN_r (x : fval) : fdiv x NaN = NaN.
Proof. by destruct x. Qed.

(** The first return is NaN: there is no earlier close. *)
Lemma pct_change_lookup_0 (qs : list Q) :
  (0 < length qs)%nat -> pct_change (Fin <$> qs) !! 0%nat = Some NaN.
Proof.
  intros Hn. unfold pct_change. rewrite lookup_zip_with.
  rewrite shift1_lookup_0 by (by rewrite length_fmap).
  destruct qs; simpl in *; [lia | done].
Qed.

(** Every later return compares a close with the one before it. *)
Lemma pct_change_lookup_S (qs : list Q) (i : nat) (x p : Q) :
  qs !! S i = Some x -> qs !! i = Some p ->
  pct_change (Fin <$> qs) !! S i
  = Some (fsub (fdiv (Fin x) (Fin p)) (Fin 1)).
Proof.
  intros Hx Hp. unfold pct_change. rewrite lookup_zip_with.
  rewrite shift1_lookup_S
    by (rewrite length_fmap; by apply lookup_lt_Some in Hx).
  by rewrite !list_lookup_fmap, Hx, Hp.
Qed.

Lemma direction_of_lookup (returns : Series) (i : nat) :
  direction_of returns !! i
  = (fun r => if fgt r (Fin 0) then 1%Z else (-1)%Z) <$> returns !! i.
Proof. unfold direction_of. by rewrite list_lookup_fmap. Qed.

(** A return is strictly positive exactly when the close rose above a
    positive previous close. *)
Lemma return_positive (x p : Q) :
  (0 < p)%Q ->
  fgt (fsub (fdiv (Fin x) (Fin p)) (Fin 1)) (Fin 0) = true <-> (p < x)%Q.
Proof.
  intros Hp. simpl.
  destruct (Qeq_bool p 0) eqn:E.
  { apply Qeq_bool_iff in E. lra. }
  simpl. rewrite negb_true_iff.
  assert (Hd : (x / p * p == x)%Q) by (field; lra).
  split.
  - intros H. destruct (Qlt_le_dec p x) as [|Hle]; [done|].
    assert (Qle_bool (x / p + - (1)) 0 = true); [|congruence].
    apply Qle_bool_iff.
    assert (x / p <= 1)%Q; [|lra]. apply Qle_shift_div_r; lra.
  - intros H. destruct (Qle_bool (x / p + - (1)) 0) eqn:E2; [|done].
    apply Qle_bool_iff in E2.
    assert (1 < x / p)%Q; [|lra]. apply Qlt_shift_div_l; lra.
Qed.

(* ===================================================================== *)
(** ** The preprocessed table *)
(* ===================================================================== *)

Section PreprocessFacts.

Variable np_sqrt : Q -> Q.
Variable yf_download : string -> string -> string -> list PriceBar.

Lemma with_indicators_lookup (data : list PriceBar) (i : nat) (r : StockRow) :
  with_indicators np_sqrt data !! i = Some r ->
  data !! i = Some (bar r)
  /\ Returns r = at_row (pct_change (Fin <$> close_column data)) i
  /\ Direction r
     = nth i (direction_of (pct_change (Fin <$> close_column data))) 0%Z
  /\ SMA r = at_row (sma data 14) i
  /\ RSI r = at_row (rsi data 14) i
  /\ BB_Upper r = at_row (fst (bollinger_bands np_sqrt data 14)) i
  /\ BB_Lower r = at_row (snd (bollinger_bands np_sqrt data 14)) i
  /\ MACD r = at_row (Fin <$> fst (macd data)) i
  /\ Signal_Line r = at_row (Fin <$> snd (macd data)) i.
Proof.
  unfold with_indicators. intros H.
  apply list_lookup_imap_Some in H as (b & Hb & ->). by simpl.
Qed.

(** [dropna] keeps the rows of the table that hold no NaN, and nothing
    else. *)
Lemma preprocess_data_row (ticker start_date end_date : string) (r : StockRow) :
  r ∈ preprocess_data np_sqrt yf_download ticker start_date end_date <->
  row_has_na r = false
  /\ exists i,
      with_indicators np_sqrt (yf_download ticker start_date end_date) !! i
      = Some r.
Proof.
  unfold preprocess_data, dropna. rewrite list_elem_of_filter.
  by rewrite list_elem_of_lookup.
Qed.

Lemma row_has_na_false (r : StockRow) :
  row_has_na r = false ->
  Returns r <> NaN /\ SMA r <> NaN /\ RSI r <> NaN /\ BB_Upper r <> NaN
  /\ BB_Lower r <> NaN /\ MACD r <> NaN /\ Signal_Line r <> NaN.
Proof.
  unfold row_has_na. rewrite !orb_false_iff.
  intros ((((((?&?)&?)&?)&?)&?)&?).
  repeat split; intros E; rewrite E in *; discriminate.
Qed.

Lemma sma_lookup_warm_up (data : list PriceBar) (w i : nat) :
  (i + 1 < w)%nat -> (i < length data)%nat -> sma data w !! i = Some NaN.
Proof.
  intros. unfold sma. apply rolling_warm_up; [done|].
  unfold close_column. by rewrite !length_fmap.
Qed.

Lemma sma_lookup_full (data : list PriceBar) (w i : nat) :
  (0 < w)%nat -> (w <= i + 1)%nat -> (i < length data)%nat ->
  sma data w !! i = Some (Fin (trailing_mean (close_column data) w i)).
Proof.
  intros Hw Hwi Hi. unfold sma.
  assert (Hlen : (i < length (close_column data))%nat)
    by (unfold close_column; by rewrite length_fmap).
  rewrite rolling_full_window by done. f_equal.
  rewrite mean_nonempty.
  - rewrite length_take_le by (rewrite length_drop; lia).
    unfold trailing_mean. by rewrite trailing_window_entries.
  - intros E. apply (f_equal length) in E.
    rewrite length_take_le in E by (rewrite length_drop; lia).
    simpl in E. lia.
Qed.

(** C6: the SMA column is NaN on the first [window - 1] rows and the mean
    of the trailing [window] closes from then on; every row that
    [preprocess_data] returns is a row [i >= 13] of the downloaded table
    and carries the mean of the 14 closes ending at [i], so no row of the
    warm-up reaches the later steps. *)
Theorem sma_is_trailing_mean (ticker start_date end_date : string) :
  let data := yf_download ticker start_date end_date in
  (forall w i, (0 < w)%nat -> (w - 1 <= i)%nat -> (i < length data)%nat ->
     sma data w !! i = Some (Fin (trailing_mean (close_column data) w i)))
  /\ (forall w i, (i < w - 1)%nat -> (i < length data)%nat ->
        sma data w !! i = Some NaN)
  /\ (forall r,
        r ∈ preprocess_data np_sqrt yf_download ticker start_date end_date ->
        exists i, (13 <= i)%nat
          /\ data !! i = Some (bar r)
          /\ SMA r = Fin (trailing_mean (close_column data) 14 i)).
Proof.
  intros data. split; [|split].
  - intros w i Hw Hwi Hi. apply sma_lookup_full; [done | lia | done].
  - intros w i Hwi Hi. apply sma_lookup_warm_up; [lia | done].
  - intros r Hr. apply preprocess_data_row in Hr as (Hna & i & Hi).
    fold data in Hi.
    apply with_indicators_lookup in Hi as (Hb & _ & _ & Hsma & _).
    apply row_has_na_false in Hna as (_ & Hns & _).
    assert (Hlt : (i < length data)%nat) by (by apply lookup_lt_Some in Hb).
    exists i. unfold at_row in Hsma. rewrite nth_lookup in Hsma.
    destruct (decide (i + 1 < 14)%nat) as [Hwarm|Hfull].
    + rewrite sma_lookup_warm_up in Hsma by done. by simpl in Hsma.
    + rewrite sma_lookup_full in Hsma by lia. simpl in Hsma.
      split; [lia | done].
Qed.

(** C1: every row of the preprocessed table has [Direction] in
    {+1, -1}; it is +1 exactly when the row's own [Returns] entry is
    strictly positive and -1 otherwise; and that entry is the change from
    the previous row's close to this row's close (nothing is shifted to
    the next day), so for a positive previous close the label is +1
    exactly when the close rose. *)
Theorem direction_is_sign_of_own_return
    (ticker start_date end_date : string) (r : StockRow) :
  let data := yf_download ticker start_date end_date in
  r ∈ preprocess_data np_sqrt yf_download ticker start_date end_date ->
  (Direction r = 1%Z \/ Direction r = (-1)%Z)
  /\ (Direction r = 1%Z <-> fgt (Returns r) (Fin 0) = true)
  /\ (Direction r = (-1)%Z <-> fgt (Returns r) (Fin 0) = false)
  /\ exists i prev,
       data !! S i = Some (bar r) /\ data !! i = Some prev
       /\ Returns r
          = fsub (fdiv (Fin (Close (bar r))) (Fin (Close prev))) (Fin 1)
       /\ ((0 < Close prev)%Q ->
           (Direction r = 1%Z <-> (Close prev < Close (bar r))%Q)).
Proof.
  intros data Hr. apply preprocess_data_row in Hr as (Hna & i & Hi).
  fold data in Hi.
  apply with_indicators_lookup in Hi as (Hb & Hret & Hdir & _).
  apply row_has_na_false in Hna as (Hnr & _).
  assert (Hlt : (i < length data)%nat) by (by apply lookup_lt_Some in Hb).
  assert (Hclose : close_column data !! i = Some (Close (bar r)))
    by (unfold close_column; by rewrite list_lookup_fmap, Hb).
  assert (Hd : Direction r = if fgt (Returns r) (Fin 0) then 1%Z else (-1)%Z).
  { rewrite Hdir, Hret. unfold at_row. rewrite !nth_lookup.
    rewrite direction_of_lookup.
    destruct (pct_change (Fin <$> close_column data) !! i) eqn:E; [done|].
    apply lookup_ge_None in E. unfold pct_change in E.
    rewrite length_zip_with, length_shift1, length_fmap in E.
    apply lookup_lt_Some in Hclose. lia. }
  assert (Hsign : (Direction r = 1%Z <-> fgt (Returns r) (Fin 0) = true)
                  /\ (Direction r = (-1)%Z <-> fgt (Returns r) (Fin 0) = false)).
  { rewrite Hd. destruct (fgt (Returns r) (Fin 0)); split; split; done. }
  split; [rewrite Hd; destruct (fgt (Returns r) (Fin 0)); auto|].
  split; [apply Hsign|]. split; [apply Hsign|].
  unfold at_row in Hret.
  destruct i as [|i].
  { rewrite nth_lookup, pct_change_lookup_0 in Hret
      by (unfold close_column; rewrite length_fmap; lia).
    by simpl in Hret. }
  destruct (lookup_lt_is_Some_2 data i) as [prev Hprev]; [lia|].
  assert (Hpc : close_column data !! i = Some (Close prev))
    by (unfold close_column; by rewrite list_lookup_fmap, Hprev).
  rewrite (nth_lookup_Some _ _ _ _ (pct_change_lookup_S _ _ _ _ Hclose Hpc))
    in Hret.
  exists i, prev. repeat split; try done.
  - intros H1. apply (return_positive _ _ H). rewrite <- Hret.
    by apply Hsign.
  - intros Hlt'. apply Hsign. rewrite Hret. by apply return_positive.
Qed.

End PreprocessFacts.

(* ===================================================================== *)
(** ** The relative strength index *)
(* ===================================================================== *)

Lemma Qsum_nonneg (qs : list Q) : Forall (Qle 0) qs -> (0 <= Qsum qs)%Q.
Proof.
  induction 1 as [|q qs Hq _ IH]; simpl; [lra|]. lra.
Qed.

Lemma finite_values_nonneg (xs : Series) :
  Forall nonneg_fin xs ->
  exists qs, finite_values xs = Some qs /\ Forall (Qle 0) qs
             /\ length qs = length xs.
Proof.
  induction 1 as [|x xs Hx _ (qs & Hqs & Hpos & Hlen)].
  - exists []. by split.
  - destruct x as [q| | |]; try done. exists (q :: qs). simpl.
    rewrite Hqs. repeat split; [by constructor | by rewrite Hlen].
Qed.

Lemma mean_nonneg (qs : list Q) :
  Forall (Qle 0) qs -> nonneg_or_nan (mean qs).
Proof.
  intros H. destruct qs as [|q qs]; [done|].
  unfold mean, nonneg_or_nan.
  apply Qle_shift_div_l.
  - change 0%Q with (inject_Z 0). rewrite <- Zlt_Qlt. simpl. lia.
  - rewrite Qmult_0_l. by apply Qsum_nonneg.
Qed.

(** A rolling mean over finite non-negative entries is NaN or finite and
    non-negative. *)
Lemma rolling_mean_nonneg (w : nat) (s : Series) (i : nat) (v : fval) :
  Forall nonneg_fin s -> rolling w mean s !! i = Some v -> nonneg_or_nan v.
Proof.
  intros Hs. unfold rolling. rewrite list_lookup_imap.
  destruct (s !! i); [|done]. simpl. intros [= <-].
  destruct (i + 1 <? w)%nat; [done|].
  destruct (finite_values_nonneg (window_at w i s)) as (qs & -> & Hqs & _).
  { unfold window_at. by apply Forall_take, Forall_drop. }
  by apply mean_nonneg.
Qed.

Lemma diff_fin_or_nan (qs : list Q) :
  Forall (fun d => d = NaN \/ exists q, d = Fin q) (diff (Fin <$> qs)).
Proof.
  apply Forall_lookup. intros i d. unfold diff.
  rewrite lookup_zip_with_Some. intros (x & p & -> & Hx & Hp).
  rewrite list_lookup_fmap in Hx.
  destruct (qs !! i) as [a|]; [|done]. injection Hx as <-.
  destruct i as [|i].
  - rewrite shift1_lookup_0 in Hp
      by (apply lookup_lt_Some in Hp; by rewrite length_shift1 in Hp).
    injection Hp as <-. by left.
  - assert (S i < length (Fin <$> qs))%nat
      by (apply lookup_lt_Some in Hp; by rewrite length_shift1 in Hp).
    rewrite shift1_lookup_S, list_lookup_fmap in Hp by done.
    destruct (qs !! i) as [b|]; [|done]. injection Hp as <-.
    right. by eexists.
Qed.

Lemma Qle_bool_false (a b : Q) : Qle_bool a b = false -> (b < a)%Q.
Proof.
  intros H. apply Qnot_le_lt. intros Hle.
  apply Qle_bool_iff in Hle. congruence.
Qed.

Lemma gain_nonneg (qs : list Q) :
  Forall nonneg_fin
    (where_ (fun d => fgt d (Fin 0)) (Fin 0) (diff (Fin <$> qs))).
Proof.
  unfold where_. apply Forall_fmap.
  eapply Forall_impl; [apply diff_fin_or_nan|].
  intros d [->|[q ->]]; simpl; [lra|].
  destruct (Qle_bool q 0) eqn:E; simpl; [lra|].
  apply Qle_bool_false in E. lra.
Qed.

Lemma loss_nonneg (qs : list Q) :
  Forall nonneg_fin
    (fneg <$> where_ (fun d => flt d (Fin 0)) (Fin 0) (diff (Fin <$> qs))).
Proof.
  unfold where_. rewrite <- list_fmap_compose. apply Forall_fmap.
  eapply Forall_impl; [apply diff_fin_or_nan|].
  intros d [->|[q ->]]; simpl; [lra|].
  destruct (Qle_bool 0 q) eqn:E; simpl; [lra|].
  apply Qle_bool_false in E. lra.
Qed.

Lemma rsi_lookup (data : list PriceBar) (w i : nat) (v : fval) :
  rsi data w !! i = Some v <->
  exists g l, rsi_avg_gain data w !! i = Some g
              /\ rsi_avg_loss data w !! i = Some l /\ v = rsi_of g l.
Proof.
  unfold rsi, rsi_avg_gain, rsi_avg_loss.
  rewrite list_lookup_fmap, fmap_Some. setoid_rewrite lookup_zip_with_Some.
  split.
  - intros (rs & (g & l & -> & Hg & Hl) & ->). by exists g, l.
  - intros (g & l & Hg & Hl & ->). exists (fdiv g l). split; [|done].
    by exists g, l.
Qed.

(** With a positive average loss the index is the textbook formula. *)
Lemma rsi_of_formula (g l : Q) :
  (0 <= g)%Q -> (0 < l)%Q ->
  rsi_of (Fin g) (Fin l) = Fin (100 + - (100 / (1 + g / l)))
  /\ (0 <= 100 + - (100 / (1 + g / l)) <= 100)%Q.
Proof.
  intros Hg Hl. unfold rsi_of. simpl.
  destruct (Qeq_bool l 0) eqn:E; [apply Qeq_bool_iff in E; lra|]. simpl.
  assert (Hq : (0 <= g / l)%Q) by (apply Qle_shift_div_l; lra).
  destruct (Qeq_bool (1 + g / l) 0) eqn:E2; [apply Qeq_bool_iff in E2; lra|].
  split; [done|].
  assert (0 <= 100 / (1 + g / l))%Q by (apply Qle_shift_div_l; lra).
  assert (100 / (1 + g / l) <= 100)%Q by (apply Qle_shift_div_r; lra).
  lra.
Qed.

(** With no loss and some gain in the window the division yields
    [+inf] and the index is 100. *)
Lemma rsi_of_zero_loss (g l : Q) :
  (0 < g)%Q -> (l == 0)%Q -> rsi_of (Fin g) (Fin l) = Fin (100 + - 0).
Proof.
  intros Hg Hl. unfold rsi_of. simpl.
  apply Qeq_bool_iff in Hl. rewrite Hl.
  apply Qgt_alt in Hg. by rewrite Hg.
Qed.

Lemma rsi_of_bounded (g l : fval) :
  nonneg_or_nan g -> nonneg_or_nan l ->
  rsi_of g l = NaN
  \/ exists r, rsi_of g l = Fin r /\ (0 <= r <= 100)%Q.
Proof.
  destruct g as [g| | |], l as [l| | |]; try done; auto.
  simpl. intros Hg Hl.
  destruct (Qlt_le_dec 0 l) as [Hpos|Hzero].
  - right. eexists. by apply rsi_of_formula.
  - assert (Hl0 : (l == 0)%Q) by lra.
    destruct (Qlt_le_dec 0 g) as [Hgpos|Hg0].
    + right. rewrite rsi_of_zero_loss by done. eexists. split; [done|]. lra.
    + left. unfold rsi_of. simpl.
      apply Qeq_bool_iff in Hl0. rewrite Hl0.
      assert (Hc : (g ?= 0)%Q = Eq) by (apply Qeq_alt; lra).
      by rewrite Hc.
Qed.

(** C5: wherever the RSI is defined (not NaN) it is a finite number in
    [0, 100]; with a positive average loss it is
    [100 - 100 / (1 + avg_gain / avg_loss)]; and with a zero average loss
    and a positive average gain the division yields [+inf] and the RSI is
    100. *)
Theorem rsi_in_0_100 (data : list PriceBar) (window i : nat) (v : fval) :
  rsi data window !! i = Some v ->
  (v <> NaN -> exists r, v = Fin r /\ (0 <= r <= 100)%Q)
  /\ (forall g l,
        rsi_avg_gain data window !! i = Some (Fin g) ->
        rsi_avg_loss data window !! i = Some (Fin l) ->
        (0 < l)%Q ->
        v =f= Fin (100 - 100 / (1 + g / l)))
  /\ (forall g l,
        rsi_avg_gain data window !! i = Some (Fin g) ->
        rsi_avg_loss data window !! i = Some (Fin l) ->
        (0 < g)%Q -> (l == 0)%Q ->
        v =f= Fin 100).
Proof.
  intros Hv. apply rsi_lookup in Hv as (g0 & l0 & Hg0 & Hl0 & ->).
  assert (Hgn : nonneg_or_nan g0)
    by (eapply rolling_mean_nonneg; [apply gain_nonneg | exact Hg0]).
  assert (Hln : nonneg_or_nan l0)
    by (eapply rolling_mean_nonneg; [apply loss_nonneg | exact Hl0]).
  split; [|split].
  - intros Hdef. by destruct (rsi_of_bounded g0 l0 Hgn Hln) as [?|?].
  - intros g l Hg Hl Hpos. rewrite Hg0 in Hg. rewrite Hl0 in Hl.
    injection Hg as ->. injection Hl as ->.
    destruct (rsi_of_formula g l Hgn Hpos) as [-> _]. simpl. lra.
  - intros g l Hg Hl Hpos Hzero. rewrite Hg0 in Hg. rewrite Hl0 in Hl.
    injection Hg as ->. injection Hl as ->.
    rewrite rsi_of_zero_loss by done. simpl. lra.
Qed.

(* ===================================================================== *)
(** ** MACD and its signal line *)
(* ===================================================================== *)

Lemma ewm_from_lookup (alpha : Q) (full : list Q) :
  forall (xs : list Q) (k j : nat),
    drop (S k) full = xs -> (j < length xs)%nat ->
    ewm_from alpha (EMA alpha full k) xs !! j = Some (EMA alpha full (S k + j)).
Proof.
  induction xs as [|x xs IH]; intros k j Hdrop Hj; simpl in Hj; [lia|].
  assert (Hx : nth (S k) full 0%Q = x).
  { apply nth_lookup_Some.
    assert (H0 : drop (S k) full !! 0%nat = Some x) by (by rewrite Hdrop).
    rewrite lookup_drop, Nat.add_0_r in H0. exact H0. }
  assert (Hrest : drop (S (S k)) full = xs).
  { replace (S (S k)) with (S k + 1)%nat by lia.
    by rewrite <- drop_drop, Hdrop. }
  destruct j as [|j].
  - simpl. rewrite Nat.add_0_r. simpl. by rewrite Hx.
  - replace (S k + S j)%nat with (S (S k) + j)%nat by lia.
    rewrite <- (IH (S k) j Hrest) by lia.
    simpl. by rewrite Hx.
Qed.

(** [ewm(span, adjust=False).mean()] is the EMA seeded with the first
    value. *)
Lemma ewm_mean_lookup (span : Z) (xs : list Q) (t : nat) :
  (t < length xs)%nat ->
  ewm_mean span xs !! t = Some (EMA (alpha_of_span span) xs t).
Proof.
  intros Ht. unfold ewm_mean. fold (alpha_of_span span).
  destruct xs as [|x0 rest]; simpl in Ht; [lia|].
  destruct t as [|t]; [done|]. simpl lookup.
  change x0 with (EMA (alpha_of_span span) (x0 :: rest) 0) at 1.
  rewrite (ewm_from_lookup _ (x0 :: rest) rest 0 t) by (done || lia).
  done.
Qed.

Lemma length_ewm_from (alpha prev : Q) (xs : list Q) :
  length (ewm_from alpha prev xs) = length xs.
Proof.
  revert prev. induction xs as [|x xs IH]; intros prev; simpl; [done|].
  by rewrite IH.
Qed.

Lemma length_ewm_mean (span : Z) (xs : list Q) :
  length (ewm_mean span xs) = length xs.
Proof.
  destruct xs; simpl; [done|]. by rewrite length_ewm_from.
Qed.

Lemma length_macd (data : list PriceBar) :
  length (fst (macd data)) = length data.
Proof.
  unfold macd. simpl. rewrite length_zip_with, !length_ewm_mean.
  unfold close_column. rewrite length_fmap. lia.
Qed.

Lemma Qsum_nil : Qsum [] = 0%Q.
Proof. done. Qed.

Lemma Qsum_cons (x : Q) (xs : list Q) : Qsum (x :: xs) = (x + Qsum xs)%Q.
Proof. done. Qed.

Lemma Qsum_app (xs ys : list Q) : (Qsum (xs ++ ys) == Qsum xs + Qsum ys)%Q.
Proof.
  induction xs as [|x xs IH].
  - rewrite app_nil_l, Qsum_nil. lra.
  - rewrite <- app_comm_cons, !Qsum_cons, IH. lra.
Qed.

Lemma Qsum_scale (c : Q) (f : nat -> Q) (ks : list nat) :
  (Qsum ((fun k => c * f k) <$> ks) == c * Qsum (f <$> ks))%Q.
Proof.
  induction ks as [|k ks IH].
  - rewrite !fmap_nil, Qsum_nil. lra.
  - rewrite !fmap_cons, !Qsum_cons, IH. lra.
Qed.

Lemma Qsum_ext (f g : nat -> Q) (ks : list nat) :
  (forall k, k ∈ ks -> (f k == g k)%Q) ->
  (Qsum (f <$> ks) == Qsum (g <$> ks))%Q.
Proof.
  induction ks as [|k ks IH]; intros H.
  - rewrite !fmap_nil. lra.
  - rewrite !fmap_cons, !Qsum_cons.
    rewrite IH by (intros; apply H; by right).
    rewrite (H k) by (by left). lra.
Qed.

(** No bias adjustment: the EMA is the seed weighted by [(1 - alpha)^t]
    plus the later values weighted by [alpha * (1 - alpha)^(t - k)]. *)
Lemma EMA_unfolded (alpha : Q) (xs : list Q) (t : nat) :
  (EMA alpha xs t == EMA_closed_form alpha xs t)%Q.
Proof.
  unfold EMA_closed_form. induction t as [|t IH].
  - cbn [EMA Qpow seq fmap list_fmap]. rewrite Qsum_nil. lra.
  - change (EMA alpha xs (S t))
      with ((1 - alpha) * EMA alpha xs t + alpha * nth (S t) xs 0)%Q.
    rewrite IH. rewrite seq_S, fmap_app, Qsum_app.
    rewrite fmap_cons, fmap_nil, Qsum_cons, Qsum_nil.
    replace (S t - (1 + t))%nat with 0%nat by lia.
    cbn [Qpow].
    rewrite (Qsum_ext
               (fun k => alpha * Qpow (1 - alpha) (S t - k) * nth k xs 0)
               (fun k => (1 - alpha)
                   * (alpha * Qpow (1 - alpha) (t - k) * nth k xs 0)))%Q.
    + rewrite Qsum_scale. change (1 + t)%nat with (S t).
      set (tail := Qsum _). set (p := Qpow _ _). ring.
    + intros k Hk. apply elem_of_seq in Hk.
      replace (S t - k)%nat with (S (t - k)) by lia. simpl. ring.
Qed.

(** C7: at every row [t], MACD is EMA12 minus EMA26 of the closes and the
    signal line is the 9-period EMA of the MACD series; each EMA starts
    at the first value and carries it on with weight [(1 - alpha)^t],
    without bias adjustment. *)
Theorem macd_is_ema_difference (data : list PriceBar) (t : nat) :
  (t < length data)%nat ->
  let closes := close_column data in
  let macd_line := fst (macd data) in
  macd_line !! t
  = Some (EMA (alpha_of_span 12) closes t - EMA (alpha_of_span 26) closes t)%Q
  /\ snd (macd data) !! t = Some (EMA (alpha_of_span 9) macd_line t)
  /\ (forall span xs,
        EMA (alpha_of_span span) xs 0 = nth 0 xs 0%Q
        /\ (EMA (alpha_of_span span) xs t
            == EMA_closed_form (alpha_of_span span) xs t)%Q).
Proof.
  intros Ht closes macd_line.
  assert (Hc : (t < length closes)%nat)
    by (unfold closes, close_column; by rewrite length_fmap).
  split; [|split].
  - unfold macd_line, macd. simpl. rewrite lookup_zip_with.
    by rewrite !ewm_mean_lookup.
  - unfold macd at 1. simpl. fold macd_line.
    apply ewm_mean_lookup. unfold macd_line. by rewrite length_macd.
  - intros span xs. split; [done | apply EMA_unfolded].
Qed.

(* ===================================================================== *)
(** ** Bollinger bands *)
(* ===================================================================== *)

Section BollingerFacts.

Variable np_sqrt : Q -> Q.

(** The square root of a non-negative number is non-negative. *)
Hypothesis np_sqrt_nonneg : forall x, (0 <= x)%Q -> (0 <= np_sqrt x)%Q.

Lemma Qsquare_nonneg (d : Q) : (0 <= d * d)%Q.
Proof.
  destruct (Qlt_le_dec d 0).
  - assert (E : (d * d == - d * - d)%Q) by ring.
    rewrite E. apply Qmult_le_0_compat; lra.
  - apply Qmult_le_0_compat; lra.
Qed.

Lemma Qsum_squares_nonneg (m : Q) (qs : list Q) :
  (0 <= Qsum ((fun x => (x - m) * (x - m))%Q <$> qs))%Q.
Proof.
  apply Qsum_nonneg, Forall_fmap, Forall_forall. intros x _.
  apply Qsquare_nonneg.
Qed.

(** The standard deviation of a window of two or more finite entries is
    finite and non-negative; a shorter window has none. *)
Lemma std_defined (qs : list Q) :
  (2 <= length qs)%nat ->
  exists s, std np_sqrt qs = Fin s /\ (0 <= s)%Q.
Proof.
  intros Hn. destruct qs as [|a [|b qs]]; simpl in Hn; try lia.
  unfold std. eexists. split; [done|].
  apply np_sqrt_nonneg. apply Qle_shift_div_l.
  - rewrite !length_cons.
    assert (2 <= inject_Z (Z.of_nat (S (S (length qs)))))%Q; [|lra].
    change 2%Q with (inject_Z 2). rewrite <- Zle_Qle. lia.
  - rewrite Qmult_0_l. apply Qsum_squares_nonneg.
Qed.

Lemma std_short_window (qs : list Q) :
  (length qs < 2)%nat -> std np_sqrt qs = NaN.
Proof.
  intros Hn. destruct qs as [|a [|b qs]]; simpl in Hn; [done | done | lia].
Qed.

Lemma bollinger_bands_lookup (data : list PriceBar) (w i : nat) (u l : fval) :
  fst (bollinger_bands np_sqrt data w) !! i = Some u ->
  snd (bollinger_bands np_sqrt data w) !! i = Some l ->
  exists m s,
    sma data w !! i = Some m
    /\ rolling w (std np_sqrt) (Fin <$> close_column data) !! i = Some s
    /\ u = fadd m (fmul (Fin 2) s) /\ l = fsub m (fmul (Fin 2) s).
Proof.
  unfold bollinger_bands, sma. simpl.
  rewrite !lookup_zip_with_Some.
  intros (m & s2 & -> & Hm & Hs) (m' & s2' & -> & Hm' & Hs').
  rewrite Hm in Hm'. injection Hm' as <-.
  rewrite Hs in Hs'. injection Hs' as <-.
  rewrite list_lookup_fmap in Hs.
  destruct (rolling w (std np_sqrt) (Fin <$> close_column data) !! i)
    as [s|] eqn:E; [|done].
  injection Hs as <-. by exists m, s.
Qed.

(** C8: at every row where the upper band is defined, the bands are
    finite, the upper one is SMA + 2 * stddev and the lower one is
    SMA - 2 * stddev, where SMA is the entry of the [sma] column and
    stddev the sample standard deviation of the same trailing window; so
    lower <= SMA <= upper. *)
Theorem bollinger_bands_bracket_sma
    (data : list PriceBar) (window i : nat) (u l : fval) :
  fst (bollinger_bands np_sqrt data window) !! i = Some u ->
  snd (bollinger_bands np_sqrt data window) !! i = Some l ->
  u <> NaN ->
  exists m s,
    sma data window !! i = Some (Fin m)
    /\ std np_sqrt (take window (drop (i + 1 - window) (close_column data)))
       = Fin s
    /\ m = trailing_mean (close_column data) window i
    /\ u = Fin (m + 2 * s) /\ l = Fin (m + - (2 * s))
    /\ (0 <= s)%Q
    /\ (m + - (2 * s) <= m)%Q /\ (m <= m + 2 * s)%Q.
Proof.
  intros Hu Hl Hdef.
  destruct (bollinger_bands_lookup _ _ _ _ _ Hu Hl) as (mv & sv & Hm & Hs & -> & ->).
  assert (Hi : (i < length data)%nat).
  { apply lookup_lt_Some in Hm. unfold sma in Hm.
    rewrite length_rolling in Hm. unfold close_column in Hm.
    by rewrite !length_fmap in Hm. }
  assert (Hlen : (i < length (close_column data))%nat)
    by (unfold close_column; by rewrite length_fmap).
  destruct (decide (i + 1 < window)%nat) as [Hwarm|Hfull].
  { rewrite sma_lookup_warm_up in Hm by done. injection Hm as <-.
    by destruct sv. }
  rewrite rolling_full_window in Hs by (lia || done). injection Hs as <-.
  set (win := take window (drop (i + 1 - window) (close_column data))) in *.
  assert (Hwin : length win = window)
    by (unfold win; rewrite length_take_le; [done | rewrite length_drop; lia]).
  destruct (decide (window < 2)%nat) as [Hshort|Hlong].
  { rewrite std_short_window in Hdef by lia. by destruct mv. }
  destruct (std_defined win) as (s & Hs & Hpos); [lia|].
  rewrite sma_lookup_full in Hm by lia. injection Hm as <-.
  rewrite Hs. cbn [fadd fsub fmul fneg].
  exists (trailing_mean (close_column data) window i), s.
  repeat split; try done; try lra.
  apply sma_lookup_full; lia.
Qed.

End BollingerFacts.

(* ===================================================================== *)
(** ** The min/max scaler *)
(* ===================================================================== *)

Lemma ten_eps_small : (0 < 10 * float_eps)%Q /\ (10 * float_eps < 1)%Q.
Proof. split; reflexivity. Qed.

(** Folding rows with a pointwise operation folds every column. *)
Lemma foldl_zip_with_lookup (f : Q -> Q -> Q) (rest : list (list Q)) :
  forall (acc : list Q) (j : nat),
    Forall (fun r => length r = length acc) rest ->
    foldl (zip_with f) acc rest !! j
    = (fun a => foldl f a ((fun r => nth j r 0%Q) <$> rest)) <$> acc !! j.
Proof.
  induction rest as [|r rest IH]; intros acc j Hlen.
  - simpl. by destruct (acc !! j).
  - apply Forall_cons in Hlen as [Hr Hrest]. simpl.
    rewrite IH.
    + rewrite lookup_zip_with. destruct (acc !! j) as [a|] eqn:Ea; [|done].
      simpl. destruct (nth_lookup_or_length r j 0%Q) as [->|Hge]; [done|].
      apply lookup_lt_Some in Ea. lia.
    + eapply Forall_impl; [exact Hrest|]. intros r' Hr'. simpl in Hr'.
      rewrite length_zip_with. lia.
Qed.

Lemma foldl_Qmin_spec (xs : list Q) :
  forall a : Q,
    (foldl Qmin a xs <= a)%Q
    /\ Forall (fun x => (foldl Qmin a xs <= x)%Q) xs
    /\ Exists (fun x => (x == foldl Qmin a xs)%Q) (a :: xs).
Proof.
  induction xs as [|x xs IH]; intros a; simpl.
  - split; [lra|]. split; [constructor|]. left. reflexivity.
  - destruct (IH (Qmin a x)) as (Hle & Hall & Hex).
    pose proof (Q.le_min_l a x). pose proof (Q.le_min_r a x).
    split; [lra|]. split; [constructor; [lra | done]|].
    apply Exists_cons in Hex as [Hhd|Htl].
    + destruct (Q.min_dec a x) as [E|E].
      * left. lra.
      * right. left. lra.
    + right. by right.
Qed.

Lemma foldl_Qmax_spec (xs : list Q) :
  forall a : Q,
    (a <= foldl Qmax a xs)%Q
    /\ Forall (fun x => (x <= foldl Qmax a xs)%Q) xs
    /\ Exists (fun x => (x == foldl Qmax a xs)%Q) (a :: xs).
Proof.
  induction xs as [|x xs IH]; intros a; simpl.
  - split; [lra|]. split; [constructor|]. left. reflexivity.
  - destruct (IH (Qmax a x)) as (Hle & Hall & Hex).
    pose proof (Q.le_max_l a x). pose proof (Q.le_max_r a x).
    split; [lra|]. split; [constructor; [lra | done]|].
    apply Exists_cons in Hex as [Hhd|Htl].
    + destruct (Q.max_dec a x) as [E|E].
      * left. lra.
      * right. left. lra.
    + right. by right.
Qed.


Lemma transform_row_lookup (sc : MinMaxScaler) (row : list Q) (j : nat) (s : Q) :
  transform_row sc row !! j = Some s <->
  exists x k m, row !! j = Some x /\ scale_ sc !! j = Some k
                /\ min_ sc !! j = Some m /\ s = (x * k + m)%Q.
Proof.
  unfold transform_row. rewrite lookup_zip_with_Some.
  setoid_rewrite lookup_zip_with_Some. split.
  - intros (xk & m & -> & (x & k & -> & Hx & Hk) & Hm). by exists x, k, m.
  - intros (x & k & m & Hx & Hk & Hm & ->).
    exists (x * k)%Q, m. split; [done|]. split; [|done]. by exists x, k.
Qed.

(** What [fit] stores for column [j] of a rectangular matrix. *)
Lemma MinMaxScaler_fit_column
    (X : list (list Q)) (sc : MinMaxScaler) (n j : nat) :
  Forall (fun r => length r = n) X ->
  MinMaxScaler_fit X = Some sc -> (j < n)%nat ->
  exists mn mx,
    data_min_ sc !! j = Some mn /\ data_max_ sc !! j = Some mx
    /\ scale_ sc !! j = Some ((1 - 0) / handle_zeros_in_scale (mx - mn))%Q
    /\ min_ sc !! j
       = Some (0 - mn * ((1 - 0) / handle_zeros_in_scale (mx - mn)))%Q
    /\ (forall row x, row ∈ X -> row !! j = Some x -> (mn <= x <= mx)%Q)
    /\ (exists row x, row ∈ X /\ row !! j = Some x /\ (x == mn)%Q)
    /\ (exists row x, row ∈ X /\ row !! j = Some x /\ (x == mx)%Q).
Proof.
  intros Hrect Hfit Hj. destruct X as [|row0 rest]; [done|].
  apply Forall_cons in Hrect as [H0 Hrest]. simpl in Hfit.
  injection Hfit as <-. simpl.
  assert (Hrest' : Forall (fun r => length r = length row0) rest)
    by (eapply Forall_impl; [exact Hrest|]; simpl; intros; lia).
  destruct (lookup_lt_is_Some_2 row0 j) as [a Ha]; [lia|].
  set (col := (fun r => nth j r 0%Q) <$> rest).
  assert (Hmin : foldl (zip_with Qmin) row0 rest !! j = Some (foldl Qmin a col))
    by (by rewrite foldl_zip_with_lookup, Ha).
  assert (Hmax : foldl (zip_with Qmax) row0 rest !! j = Some (foldl Qmax a col))
    by (by rewrite foldl_zip_with_lookup, Ha).
  destruct (foldl_Qmin_spec col a) as (Hmin_a & Hmin_all & Hmin_ex).
  destruct (foldl_Qmax_spec col a) as (Hmax_a & Hmax_all & Hmax_ex).
  assert (Hcol : forall row x, row ∈ rest -> row !! j = Some x -> x ∈ col).
  { intros row x Hrow Hx. unfold col. apply list_elem_of_fmap.
    exists row. split; [|done]. symmetry. by apply nth_lookup_Some. }
  assert (Hcol' : forall P : Q -> Prop, Exists P (a :: col) ->
            exists row x, row ∈ row0 :: rest /\ row !! j = Some x /\ P x).
  { intros P Hex. apply Exists_cons in Hex as [Hhd|Htl].
    - exists row0, a. repeat split; [by left | done | done].
    - apply Exists_exists in Htl as (x & Hx & HP).
      unfold col in Hx. apply list_elem_of_fmap in Hx as (row & -> & Hrow).
      exists row, (nth j row 0%Q). split; [by right|]. split; [|done].
      rewrite Forall_forall in Hrest.
      destruct (nth_lookup_or_length row j 0%Q) as [?|Hge]; [done|].
      specialize (Hrest row Hrow). simpl in Hrest. lia. }
  exists (foldl Qmin a col), (foldl Qmax a col).
  split; [done|]. split; [done|].
  split.
  { rewrite list_lookup_fmap, lookup_zip_with, Hmax, Hmin. done. }
  split.
  { rewrite lookup_zip_with, Hmin. simpl.
    rewrite list_lookup_fmap, lookup_zip_with, Hmax, Hmin. done. }
  split.
  { intros row x Hrow Hx. apply elem_of_cons in Hrow as [->|Hrow].
    - rewrite Ha in Hx. injection Hx as <-. lra.
    - pose proof (Hcol row x Hrow Hx) as Hin.
      rewrite Forall_forall in Hmin_all, Hmax_all.
      specialize (Hmin_all x Hin). specialize (Hmax_all x Hin). simpl in *. lra. }
  split; [apply (Hcol' _ Hmin_ex) | apply (Hcol' _ Hmax_ex)].
Qed.


(* ===================================================================== *)
(** ** [main]: features, scaling and split *)
(* ===================================================================== *)

Lemma select_feature_row (m : MergedRow) :
  mapM (fun c => row_dict m !! c) feature_columns = Some (feature_row m).
Proof. reflexivity. Qed.

Lemma mapM_total {A B} (f : A -> option B) (g : A -> B) (l : list A) :
  (forall a, f a = Some (g a)) -> mapM f l = Some (g <$> l).
Proof.
  intros H. apply mapM_Some_2, Forall2_fmap_r, Forall_Forall2_diag.
  apply Forall_forall. intros a _. apply H.
Qed.

(** Selecting the feature columns always succeeds and lays the columns
    out in the order of [feature_columns]. *)
Lemma select_feature_columns (data : list MergedRow) :
  select_columns feature_columns data
  = Some (mkFrame feature_columns (feature_row <$> data)).
Proof.
  unfold select_columns.
  by rewrite (mapM_total _ feature_row) by apply select_feature_row.
Qed.

Section MainFacts.

Variable np_sqrt : Q -> Q.
Variable yf_download : string -> string -> string -> list PriceBar.
Variable compound : string -> Q.
Variable today : string.
Variable permutation : nat -> list nat.
Variable grid_search_best : string -> DataFrame Q -> list Z -> Classifier.

Abbreviation main_ := (main np_sqrt yf_download compound today permutation).
Abbreviation loop_body_ := (loop_body compound grid_search_best).

(** What the names of [main] hold when it returns. *)
Lemma main_inv (stock_ticker news_headline : string) (L : MainLocals) :
  main_ stock_ticker news_headline = Some L ->
  exists raw : list (list Q),
    feature_matrix (merged_data L) = Some raw
    /\ check_array (feature_row <$> merged_data L) = Some raw
    /\ MinMaxScaler_fit raw = Some (scaler L)
    /\ X_scaled L = MinMaxScaler_transform (scaler L) raw
    /\ X L = mkFrame feature_columns (X_scaled L)
    /\ y L = (fun r => Direction (stock r)) <$> merged_data L
    /\ columns (X_train L) = feature_columns
    /\ columns (X_test L) = feature_columns
    /\ train_test_split permutation (X_scaled L) (y L)
       = Some (values (X_train L), values (X_test L), y_train L, y_test L).
Proof.
  unfold main, prepare_features. rewrite select_feature_columns. csimpl.
  intros H.
  destruct (check_array _) as [raw|] eqn:Hraw; [|done]. csimpl in H.
  destruct (MinMaxScaler_fit raw) as [sc|] eqn:Hfit; [|done]. csimpl in H.
  destruct (train_test_split _ _ _) as [[[[xtr xte] ytr] yte]|] eqn:Hsplit;
    [|done].
  csimpl in H. injection H as <-. simpl.
  exists raw. unfold feature_matrix. rewrite select_feature_columns. csimpl.
  repeat split; done.
Qed.

Lemma take_rows_elem_of {A} (rows : list A) (idx : list nat) (x : A) :
  x ∈ take_rows rows idx -> x ∈ rows.
Proof.
  unfold take_rows. rewrite list_elem_of_omap.
  intros (i & _ & Hi). by eapply list_elem_of_lookup_2.
Qed.

Lemma train_test_split_rows {A B} (Xs : list A) (ys : list B)
    (xtr xte : list A) (ytr yte : list B) :
  train_test_split permutation Xs ys = Some (xtr, xte, ytr, yte) ->
  (forall x, x ∈ xtr -> x ∈ Xs) /\ (forall x, x ∈ xte -> x ∈ Xs).
Proof.
  unfold train_test_split.
  destruct (_ =? 0)%nat; [done|]. intros [= <- <- <- <-].
  split; intros x; apply take_rows_elem_of.
Qed.

Lemma index_of_feature (i : nat) (name : string) :
  feature_columns !! i = Some name -> index_of name feature_columns = Some i.
Proof.
  intros H.
  do 7 (destruct i as [|i]; [injection H as <-; reflexivity|]).
  done.
Qed.

(** The row built for prediction, against a table laid out like the
    training matrix: the new headline's score first, then the last row's
    entry under each training column. *)
Lemma prediction_row_spec (s : Q) (df : DataFrame Q) (v : list Q) :
  columns df = feature_columns ->
  prediction_row s df = Some v ->
  length v = length feature_columns
  /\ forall i name,
       feature_columns !! i = Some name ->
       v !! i = if decide (name = "Sentiment") then Some s
                else column_last df name.
Proof.
  intros Hcols. unfold prediction_row.
  destruct (column_last df "SMA") as [a1|] eqn:E1; [|done]. csimpl.
  destruct (column_last df "RSI") as [a2|] eqn:E2; [|done]. csimpl.
  destruct (column_last df "BB_Upper") as [a3|] eqn:E3; [|done]. csimpl.
  destruct (column_last df "BB_Lower") as [a4|] eqn:E4; [|done]. csimpl.
  destruct (column_last df "MACD") as [a5|] eqn:E5; [|done]. csimpl.
  destruct (column_last df "Signal_Line") as [a6|] eqn:E6; [|done]. csimpl.
  intros [= <-]. split; [done|].
  intros i name H.
  do 7 (destruct i as [|i];
        [injection H as <-; case_decide; (done || by simplify_eq)|]).
  done.
Qed.

Lemma column_last_lookup (df : DataFrame Q) (i : nat) (name : string) (row : list Q) :
  columns df = feature_columns ->
  feature_columns !! i = Some name ->
  last (values df) = Some row ->
  column_last df name = row !! i.
Proof.
  intros Hcols Hname Hlast. unfold column_last.
  by rewrite Hcols, (index_of_feature i name Hname), Hlast.
Qed.

Lemma loop_body_inv (L : MainLocals) (news_headline model_name : string)
    (rep : ModelReport) :
  loop_body_ L news_headline model_name = Some rep ->
  exists v p0,
    prediction_row (compound news_headline) (X_test L) = Some v
    /\ report_scaled_input rep = MinMaxScaler_transform (scaler L) [v]
    /\ grid_search_best model_name (X_train L) (y_train L)
         (report_scaled_input rep) !! 0%nat = Some p0
    /\ report_movement rep = (if (p0 >? 0)%Z then "up" else "down")
    /\ report_model rep = model_name.
Proof.
  unfold loop_body, train_and_evaluate_model.
  destruct (prediction_row _ _) as [v|]; [|done]. csimpl.
  destruct (_ !! 0%nat) as [p0|] eqn:Ep; [|done]. csimpl.
  intros [= <-]. simpl. by exists v, p0.
Qed.

(** Every row of the training and of the test table is a row of the raw
    feature matrix transformed by the one scaler [main] keeps. *)
Lemma split_rows_scaled (stock_ticker news_headline : string) (L : MainLocals) :
  main_ stock_ticker news_headline = Some L ->
  exists raw : list (list Q),
    feature_matrix (merged_data L) = Some raw
    /\ (forall row, row ∈ values (X_train L) ->
          exists r, r ∈ raw /\ row = transform_row (scaler L) r)
    /\ (forall row, row ∈ values (X_test L) ->
          exists r, r ∈ raw /\ row = transform_row (scaler L) r).
Proof.
  intros Hmain.
  destruct (main_inv _ _ _ Hmain)
    as (raw & Hraw & _ & _ & Hscaled & _ & _ & _ & _ & Hsplit).
  exists raw.
  assert (Hin : forall row, row ∈ X_scaled L ->
            exists r, r ∈ raw /\ row = transform_row (scaler L) r).
  { intros row. rewrite Hscaled. unfold MinMaxScaler_transform.
    rewrite list_elem_of_fmap. intros (r & -> & Hr). by exists r. }
  destruct (train_test_split_rows _ _ _ _ _ _ Hsplit) as [Htr Hte].
  split; [done|].
  split; intros row Hrow; [by apply Hin, Htr | by apply Hin, Hte].
Qed.

(** C3, as [main] has it: the scaler is fit once, on the whole feature
    matrix (every merged row, before the split); the training rows and
    the test rows are rows of that matrix transformed with these same
    parameters, and the row built at prediction time goes through the
    same transform. *)
Theorem scaler_fit_on_whole_matrix
    (stock_ticker news_headline : string) (L : MainLocals) :
  main_ stock_ticker news_headline = Some L ->
  exists raw : list (list Q),
    feature_matrix (merged_data L) = Some raw
    /\ length raw = length (merged_data L)
    /\ MinMaxScaler_fit raw = Some (scaler L)
    /\ values (X L) = MinMaxScaler_transform (scaler L) raw
    /\ (forall row, row ∈ values (X_train L) ->
          exists r, r ∈ raw /\ row = transform_row (scaler L) r)
    /\ (forall row, row ∈ values (X_test L) ->
          exists r, r ∈ raw /\ row = transform_row (scaler L) r)
    /\ (forall headline model_name rep,
          loop_body_ L headline model_name = Some rep ->
          exists v,
            prediction_row (compound headline) (X_test L) = Some v
            /\ report_scaled_input rep = [transform_row (scaler L) v]).
Proof.
  intros Hmain.
  destruct (main_inv _ _ _ Hmain)
    as (raw & Hraw & Hcheck & Hfit & Hscaled & HX & _).
  destruct (split_rows_scaled _ _ _ Hmain) as (raw' & Hraw' & Htr & Hte).
  rewrite Hraw in Hraw'. injection Hraw' as <-.
  exists raw. split; [done|]. split.
  { unfold check_array in Hcheck. apply length_mapM in Hcheck.
    by rewrite length_fmap in Hcheck. }
  split; [done|]. split; [by rewrite HX|].
  split; [done|]. split; [done|].
  intros headline model_name rep Hrep.
  destruct (loop_body_inv _ _ _ _ Hrep) as (v & p0 & Hv & Hin' & _).
  by exists v.
Qed.

(** The indicator entries of the prediction row are entries of a test row
    that [main] has already scaled: the loop scales them a second time. *)
Lemma prediction_row_rescaled
    (stock_ticker news_headline headline model_name : string)
    (L : MainLocals) (rep : ModelReport) :
  main_ stock_ticker news_headline = Some L ->
  loop_body_ L headline model_name = Some rep ->
  exists raw r v,
    feature_matrix (merged_data L) = Some raw /\ r ∈ raw
    /\ last (values (X_test L)) = Some (transform_row (scaler L) r)
    /\ report_scaled_input rep = [transform_row (scaler L) v]
    /\ v !! 0%nat = Some (compound headline)
    /\ forall i, (1 <= i < 7)%nat -> v !! i = transform_row (scaler L) r !! i.
Proof.
  intros Hmain Hrep.
  destruct (split_rows_scaled _ _ _ Hmain) as (raw & Hraw & _ & Hte).
  destruct (loop_body_inv _ _ _ _ Hrep) as (v & _ & Hv & Hin & _).
  destruct (main_inv _ _ _ Hmain) as (_ & _ & _ & _ & _ & _ & _ & _ & Hcte & _).
  destruct (prediction_row_spec _ _ _ Hcte Hv) as [Hlen Hv'].
  destruct (last (values (X_test L))) as [row|] eqn:Hlast.
  - destruct (Hte row) as (r & Hr & ->).
    { apply last_Some in Hlast as [l' ->]. apply elem_of_app. right. by left. }
    exists raw, r, v. repeat split; try done.
    + by apply (Hv' 0%nat "Sentiment").
    + intros i Hi.
      destruct (lookup_lt_is_Some_2 feature_columns i) as [name Hname];
        [simpl; lia|].
      rewrite (Hv' i name Hname).
      rewrite (column_last_lookup _ i name _ Hcte Hname Hlast).
      case_decide as Hs; [|done]. subst name.
      do 7 (destruct i as [|i]; [simpl in Hname; (lia || discriminate)|]).
      done.
  - unfold prediction_row, column_last in Hv. rewrite Hlast, Hcte in Hv.
    done.
Qed.

(** C10: the columns of the training and test tables are
    [feature_columns], in that order; column [i] of the matrix the scaler
    and the classifiers are fit on holds the feature of that name; and
    entry [i] of the prediction row is read under the same name: the new
    headline's score for [Sentiment], the last test row's entry of that
    column for the six indicators. *)
Theorem prediction_row_in_training_order
    (stock_ticker news_headline headline : string)
    (L : MainLocals) (v : list Q) :
  main_ stock_ticker news_headline = Some L ->
  prediction_row (compound headline) (X_test L) = Some v ->
  columns (X_train L) = feature_columns
  /\ columns (X_test L) = columns (X_train L)
  /\ length v = length (columns (X_train L))
  /\ forall i name,
       columns (X_train L) !! i = Some name ->
       (forall m, feature_row m !! i = row_dict m !! name)
       /\ v !! i = (if decide (name = "Sentiment")
                    then Some (compound headline)
                    else column_last (X_test L) name).
Proof.
  intros Hmain Hv.
  destruct (main_inv _ _ _ Hmain) as (_ & _ & _ & _ & _ & _ & _ & Hctr & Hcte & _).
  destruct (prediction_row_spec _ _ _ Hcte Hv) as [Hlen Hv'].
  rewrite Hctr. repeat split; try done.
  - intros m.
    do 7 (destruct i as [|i]; [injection H as <-; reflexivity|]).
    done.
  - by apply Hv'.
Qed.

(** What reaches [merged_data]: rows [preprocess_data] returned, each
    paired with the placeholder headline and its sentiment score, so the
    [Sentiment] column is constant. *)
Lemma main_merged_rows (stock_ticker news_headline : string)
    (L : MainLocals) (m : MergedRow) :
  main_ stock_ticker news_headline = Some L ->
  m ∈ merged_data L ->
  stock m ∈ preprocess_data np_sqrt yf_download stock_ticker
                            "1993-02-01" today
  /\ headline m = "Sample headline"
  /\ Sentiment m = Fin (compound "Sample headline").
Proof.
  unfold main, prepare_features. rewrite select_feature_columns. csimpl.
  intros H.
  destruct (check_array _) as [raw|]; [|done]. csimpl in H.
  destruct (MinMaxScaler_fit raw) as [sc|]; [|done]. csimpl in H.
  destruct (train_test_split _ _ _) as [[[[xtr xte] ytr] yte]|]; [|done].
  csimpl in H. injection H as <-. simpl.
  rewrite list_elem_of_fmap. intros ([s h] & -> & Hp). simpl.
  apply list_elem_of_filter in Hp as [_ Hp].
  unfold merge_on_Date in Hp.
  apply list_elem_of_bind in Hp as (s' & Hp & Hs').
  apply list_elem_of_bind in Hp as (n & Hp & Hn).
  apply list_elem_of_singleton in Hp. injection Hp as -> ->.
  apply list_elem_of_filter in Hn as [_ Hn].
  apply list_elem_of_fmap in Hn as (r & -> & _). simpl.
  by repeat split.
Qed.

Lemma take_rows_fmap {A B} (f : A -> B) (rows : list A) (idx : list nat) :
  take_rows (f <$> rows) idx = f <$> take_rows rows idx.
Proof.
  unfold take_rows. induction idx as [|i idx IH]; [done|].
  csimpl. rewrite list_lookup_fmap, IH. by destruct (rows !! i).
Qed.

(** The training table is the scaled image of [training_rows_raw]. *)
Lemma X_train_is_scaled_training_rows
    (stock_ticker news_headline : string) (L : MainLocals) :
  main_ stock_ticker news_headline = Some L ->
  exists rows,
    training_rows_raw permutation L = Some rows
    /\ values (X_train L) = MinMaxScaler_transform (scaler L) rows.
Proof.
  intros Hmain.
  destruct (main_inv _ _ _ Hmain)
    as (raw & Hraw & _ & _ & Hscaled & _ & _ & _ & _ & Hsplit).
  unfold training_rows_raw. rewrite Hraw. csimpl. eexists. split; [done|].
  unfold train_test_split in Hsplit.
  destruct (_ =? 0)%nat; [done|]. injection Hsplit as Htr _ _ _.
  rewrite <- Htr, Hscaled. unfold MinMaxScaler_transform.
  by rewrite take_rows_fmap, length_fmap.
Qed.

End MainFacts.

(* ===================================================================== *)
(** ** Running the script *)
(* ===================================================================== *)






(* ===================================================================== *)
(** ** The theorems on sample inputs *)
(* ===================================================================== *)

Lemma sqrt_floor_nonneg (x : Q) : (0 <= x)%Q -> (0 <= sqrt_floor x)%Q.
Proof.
  intros _. unfold sqrt_floor, Qle. simpl.
  rewrite Z.mul_1_r. apply Z.sqrt_nonneg.
Qed.

(** A yes/no question about a sample run, settled by running it. *)
Ltac by_running := apply (bool_decide_unpack _); vm_compute; exact I.

Lemma direction_is_sign_of_own_return_witness :
  exists r,
    r ∈ preprocess_data sqrt_floor sample_download "AAPL" "1993-02-01" "2024-01-01"
    /\ (Direction r = 1%Z <-> fgt (Returns r) (Fin 0) = true).
Proof.
  assert (H : is_Some (head (preprocess_data sqrt_floor sample_download
                               "AAPL" "1993-02-01" "2024-01-01")))
    by by_running.
  destruct H as [r Hr]. apply head_Some_elem_of in Hr.
  exists r. split; [exact Hr|].
  exact (proj1 (proj2 (direction_is_sign_of_own_return
                         sqrt_floor sample_download _ _ _ r Hr))).
Defined.

Lemma sma_is_trailing_mean_witness :
  exists r i,
    r ∈ preprocess_data sqrt_floor sample_download "AAPL" "1993-02-01" "2024-01-01"
    /\ (13 <= i)%nat
    /\ SMA r = Fin (trailing_mean
                      (close_column (sample_download "AAPL" "1993-02-01"
                                                     "2024-01-01")) 14 i).
Proof.
  assert (H : is_Some (head (preprocess_data sqrt_floor sample_download
                               "AAPL" "1993-02-01" "2024-01-01")))
    by by_running.
  destruct H as [r Hr]. apply head_Some_elem_of in Hr.
  destruct (proj2 (proj2 (sma_is_trailing_mean sqrt_floor sample_download
                            "AAPL" "1993-02-01" "2024-01-01")) r Hr)
    as (i & Hi & _ & Hsma).
  exists r, i. split; [exact Hr|]. split; [exact Hi | exact Hsma].
Defined.

Lemma rsi_in_0_100_witness :
  exists v,
    rsi (bars_of rising_closes) 14 !! 13%nat = Some v /\ v =f= Fin 100.
Proof.
  assert (H : is_Some (rsi (bars_of rising_closes) 14 !! 13%nat))
    by by_running.
  destruct H as [v Hv]. exists v. split; [exact Hv|].
  assert (Hg : rsi_avg_gain (bars_of rising_closes) 14 !! 13%nat
               = Some (Fin (13 # 14))) by (vm_compute; reflexivity).
  assert (Hl : rsi_avg_loss (bars_of rising_closes) 14 !! 13%nat
               = Some (Fin (0 # 14))) by (vm_compute; reflexivity).
  apply (proj2 (proj2 (rsi_in_0_100 _ _ _ _ Hv)) _ _ Hg Hl); reflexivity.
Defined.

Lemma macd_is_ema_difference_witness :
  let data := bars_of sample_closes in
  fst (macd data) !! 5%nat
  = Some (EMA (alpha_of_span 12) (close_column data) 5
          - EMA (alpha_of_span 26) (close_column data) 5)%Q
  /\ snd (macd data) !! 5%nat = Some (EMA (alpha_of_span 9) (fst (macd data)) 5).
Proof.
  assert (H : (5 < length (bars_of sample_closes))%nat)
    by (apply Nat.ltb_lt; vm_compute; reflexivity).
  destruct (macd_is_ema_difference (bars_of sample_closes) 5 H) as (H1 & H2 & _).
  split; [exact H1 | exact H2].
Defined.

Lemma bollinger_bands_bracket_sma_witness :
  exists u l m,
    fst (bollinger_bands sqrt_floor (bars_of sample_closes) 14) !! 13%nat = Some (Fin u)
    /\ snd (bollinger_bands sqrt_floor (bars_of sample_closes) 14) !! 13%nat = Some (Fin l)
    /\ sma (bars_of sample_closes) 14 !! 13%nat = Some (Fin m)
    /\ (l <= m)%Q /\ (m <= u)%Q.
Proof.
  pose (data := bars_of sample_closes).
  assert (Hu : is_Some (fst (bollinger_bands sqrt_floor data 14) !! 13%nat))
    by by_running.
  assert (Hl : is_Some (snd (bollinger_bands sqrt_floor data 14) !! 13%nat))
    by by_running.
  destruct Hu as [u Hu], Hl as [l Hl].
  assert (Hdef : u <> NaN).
  { assert (Hn : isna <$> fst (bollinger_bands sqrt_floor data 14) !! 13%nat
                 = Some false) by (vm_compute; reflexivity).
    rewrite Hu in Hn. intros ->. discriminate. }
  destruct (bollinger_bands_bracket_sma sqrt_floor sqrt_floor_nonneg
              data 14 13 u l Hu Hl Hdef)
    as (m & s & Hm & _ & _ & -> & -> & _ & Hlo & Hhi).
  eexists _, _, m.
  split; [exact Hu|]. split; [exact Hl|]. split; [exact Hm|].
  split; [exact Hlo | exact Hhi].
Defined.



Lemma scaler_fit_on_whole_matrix_witness :
  exists L raw,
    sample_main = Some L
    /\ feature_matrix (merged_data L) = Some raw
    /\ MinMaxScaler_fit raw = Some (scaler L)
    /\ length raw = length (merged_data L).
Proof.
  assert (H : is_Some sample_main) by by_running.
  destruct H as [L HL].
  destruct (scaler_fit_on_whole_matrix sqrt_floor sample_download
              sample_compound "2024-01-01" sample_permutation
              sample_grid_search "AAPL" "good news" L HL)
    as (raw & Hraw & Hlen & Hfit & _).
  exists L, raw. split; [exact HL|]. split; [exact Hraw|].
  split; [exact Hfit | exact Hlen].
Defined.

(** The scaler is not fit on the training split alone: whichever of the
    two rows of the short table the shuffle puts in the test set, the
    scaler [main] keeps has other bounds than a scaler fit on the training
    row, so the test row did shape it. *)
Lemma scaler_fit_sees_the_test_row :
  Forall (fun perm =>
            exists L train_only,
              short_main perm = Some L
              /\ length (values (X_test L)) = 1%nat
              /\ training_rows_raw (fun _ => perm) L ≫= MinMaxScaler_fit
                 = Some train_only
              /\ same_bounds train_only (scaler L) = false)
         [[0; 1]; [1; 0]]%nat.
Proof.
  assert (Hgen : forall perm, training_only_fit_differs perm = true ->
            exists L train_only,
              short_main perm = Some L
              /\ length (values (X_test L)) = 1%nat
              /\ training_rows_raw (fun _ => perm) L ≫= MinMaxScaler_fit
                 = Some train_only
              /\ same_bounds train_only (scaler L) = false).
  { intros perm. unfold training_only_fit_differs.
    destruct (short_main perm) as [L|] eqn:HL; [|discriminate].
    destruct (training_rows_raw _ L ≫= MinMaxScaler_fit) as [sc|] eqn:Hsc;
      [|discriminate].
    intros H. apply andb_true_iff in H as [Hlen Hdiff].
    apply bool_decide_eq_true in Hlen. apply negb_true_iff in Hdiff.
    exists L, sc. split; [reflexivity|]. split; [exact Hlen|].
    split; [exact Hsc | exact Hdiff]. }
  apply Forall_cons_2; [apply Hgen; vm_compute; reflexivity|].
  apply Forall_cons_2; [apply Hgen; vm_compute; reflexivity|].
  apply Forall_nil_2.
Qed.

Lemma prediction_row_in_training_order_witness :
  exists L v,
    sample_main = Some L
    /\ prediction_row (sample_compound "good news") (X_test L) = Some v
    /\ columns (X_train L) = feature_columns
    /\ length v = length (columns (X_train L)).
Proof.
  assert (H : is_Some (sample_main ≫= fun L =>
                 prediction_row (sample_compound "good news") (X_test L)))
    by by_running.
  destruct sample_main as [L|] eqn:HL; [|by destruct H].
  destruct H as [v Hv]. change (Some L ≫= ?f) with (f L) in Hv.
  destruct (prediction_row_in_training_order sqrt_floor sample_download
              sample_compound "2024-01-01" sample_permutation
              "AAPL" "good news" "good news" L v HL Hv)
    as (Hcols & _ & Hlen & _).
  exists L, v. split; [reflexivity|]. split; [exact Hv|].
  split; [exact Hcols | exact Hlen].
Defined.


(* ===================================================================== *)
(** ** Further facts: the preprocessed table *)
(* ===================================================================== *)

Lemma length_sma (data : list PriceBar) (w : nat) :
  length (sma data w) = length data.
Proof.
  unfold sma, close_column. by rewrite length_rolling, !length_fmap.
Qed.

Lemma length_diff (s : Series) : length (diff s) = length s.
Proof. unfold diff. rewrite length_zip_with, length_shift1. lia. Qed.

Lemma length_rsi (data : list PriceBar) (w : nat) :
  length (rsi data w) = length data.
Proof.
  unfold rsi, where_, close_column.
  rewrite length_fmap, length_zip_with, !length_rolling, !length_fmap,
    length_diff, !length_fmap.
  lia.
Qed.

Lemma length_signal_line (data : list PriceBar) :
  length (snd (macd data)) = length data.
Proof.
  unfold macd at 1. cbn [snd].
  change (zip_with Qminus _ _) with (fst (macd data)).
  by rewrite length_ewm_mean, length_macd.
Qed.

Section PreprocessShape.

Variable np_sqrt : Q -> Q.
Variable yf_download : string -> string -> string -> list PriceBar.

Lemma length_bollinger_bands (data : list PriceBar) (w : nat) :
  length (fst (bollinger_bands np_sqrt data w)) = length data
  /\ length (snd (bollinger_bands np_sqrt data w)) = length data.
Proof.
  unfold bollinger_bands, close_column. cbn [fst snd].
  rewrite !length_zip_with, !length_fmap, !length_rolling, !length_fmap.
  lia.
Qed.

(** Every indicator column has one entry per downloaded bar, so row [i]
    of each column belongs to bar [i]. *)
Theorem indicator_columns_aligned (data : list PriceBar) (window : nat) :
  length (sma data window) = length data
  /\ length (rsi data window) = length data
  /\ length (fst (bollinger_bands np_sqrt data window)) = length data
  /\ length (snd (bollinger_bands np_sqrt data window)) = length data
  /\ length (fst (macd data)) = length data
  /\ length (snd (macd data)) = length data.
Proof.
  destruct (length_bollinger_bands data window) as [Hu Hl].
  split; [apply length_sma|]. split; [apply length_rsi|].
  split; [exact Hu|]. split; [exact Hl|].
  split; [apply length_macd | apply length_signal_line].
Qed.

Lemma bar_with_indicators (data : list PriceBar) :
  bar <$> with_indicators np_sqrt data = data.
Proof.
  unfold with_indicators. apply list_eq. intros i.
  rewrite list_lookup_fmap, list_lookup_imap.
  by destruct (data !! i).
Qed.

Lemma with_indicators_warm_up (data : list PriceBar) (i : nat) (r : StockRow) :
  with_indicators np_sqrt data !! i = Some r -> (i < 13)%nat ->
  row_has_na r = true.
Proof.
  intros Hr Hi.
  apply with_indicators_lookup in Hr as (Hb & _ & _ & Hsma & _).
  unfold row_has_na. rewrite Hsma. unfold at_row.
  rewrite nth_lookup, sma_lookup_warm_up
    by (lia || by apply lookup_lt_Some in Hb).
  simpl. by rewrite orb_true_r.
Qed.

Lemma preprocess_data_sublist (ticker start_date end_date : string) :
  bar <$> preprocess_data np_sqrt yf_download ticker start_date end_date
  `sublist_of` yf_download ticker start_date end_date.
Proof.
  unfold preprocess_data, dropna.
  set (data := yf_download ticker start_date end_date).
  rewrite <- (bar_with_indicators data) at 2.
  apply fmap_sublist, sublist_filter.
Qed.

Lemma length_preprocess_data (ticker start_date end_date : string) :
  (length (preprocess_data np_sqrt yf_download ticker start_date end_date)
   <= length (yf_download ticker start_date end_date) - 13)%nat.
Proof.
  unfold preprocess_data, dropna.
  set (data := yf_download ticker start_date end_date).
  { rewrite <- (take_drop 13 (with_indicators np_sqrt data)), filter_app.
    assert (Hnil : filter (fun r => row_has_na r = false)
                     (take 13 (with_indicators np_sqrt data)) = []).
    { apply elem_of_nil_inv. intros r Hr.
      apply list_elem_of_filter in Hr as [Hna Hr].
      apply list_elem_of_lookup in Hr as [i Hi].
      apply lookup_take_Some in Hi as [Hi Hlt].
      rewrite (with_indicators_warm_up data i r Hi Hlt) in Hna.
      discriminate. }
    rewrite Hnil, app_nil_l.
    etrans; [apply length_filter|].
    rewrite length_drop. unfold with_indicators. by rewrite length_imap. }
Qed.

(** [preprocess_data] returns bars of the download in their order (it
    drops rows, it never reorders or invents one), and it drops at least
    the first 13: at most [n - 13] of [n] bars come back. *)
Theorem preprocess_data_keeps_order (ticker start_date end_date : string) :
  let data := yf_download ticker start_date end_date in
  let rows := preprocess_data np_sqrt yf_download ticker start_date end_date in
  bar <$> rows `sublist_of` data
  /\ (length rows <= length data - 13)%nat.
Proof.
  split; [apply preprocess_data_sublist | apply length_preprocess_data].
Qed.

End PreprocessShape.

Lemma rolling_fin_or_nan (w : nat) (agg : list Q -> fval) (s : Series)
    (i : nat) (v : fval) :
  (forall qs, agg qs = NaN \/ is_fin (agg qs)) ->
  rolling w agg s !! i = Some v -> v = NaN \/ is_fin v.
Proof.
  intros Hagg. unfold rolling. rewrite list_lookup_imap.
  destruct (s !! i); [|done]. simpl. intros [= <-].
  destruct (i + 1 <? w)%nat; [by left|].
  destruct (finite_values _); [apply Hagg | by left].
Qed.

Lemma mean_fin_or_nan (qs : list Q) : mean qs = NaN \/ is_fin (mean qs).
Proof. destruct qs; [by left | by right]. Qed.

Lemma at_row_cases (s : Series) (i : nat) :
  at_row s i = NaN \/ s !! i = Some (at_row s i).
Proof.
  unfold at_row. rewrite nth_lookup. destruct (s !! i); [by right | by left].
Qed.

Lemma at_row_Fin (qs : list Q) (i : nat) :
  at_row (Fin <$> qs) i = NaN \/ is_fin (at_row (Fin <$> qs) i).
Proof.
  unfold at_row. rewrite nth_lookup, list_lookup_fmap.
  destruct (qs !! i); [by right | by left].
Qed.

Lemma rsi_entry_range (data : list PriceBar) (w i : nat) (v : fval) :
  rsi data w !! i = Some v ->
  v = NaN \/ exists r, v = Fin r /\ (0 <= r <= 100)%Q.
Proof.
  intros Hv. apply rsi_lookup in Hv as (g & l & Hg & Hl & ->).
  apply rsi_of_bounded.
  - eapply rolling_mean_nonneg; [apply gain_nonneg | exact Hg].
  - eapply rolling_mean_nonneg; [apply loss_nonneg | exact Hl].
Qed.

Section PreprocessValues.

Variable np_sqrt : Q -> Q.
Variable yf_download : string -> string -> string -> list PriceBar.

Lemma std_fin_or_nan (qs : list Q) :
  std np_sqrt qs = NaN \/ is_fin (std np_sqrt qs).
Proof. destruct qs as [|a [|b qs]]; [by left | by left | by right]. Qed.

Lemma bollinger_entry_fin_or_nan (data : list PriceBar) (w i : nat) (u l : fval) :
  fst (bollinger_bands np_sqrt data w) !! i = Some u ->
  snd (bollinger_bands np_sqrt data w) !! i = Some l ->
  (u = NaN \/ is_fin u) /\ (l = NaN \/ is_fin l).
Proof.
  intros Hu Hl.
  destruct (bollinger_bands_lookup _ _ _ _ _ _ Hu Hl)
    as (m & s & Hm & Hs & -> & ->).
  apply (rolling_fin_or_nan _ _ _ _ _ mean_fin_or_nan) in Hm.
  apply (rolling_fin_or_nan _ _ _ _ _ std_fin_or_nan) in Hs.
  destruct Hm as [Hm|Hm], Hs as [Hs|Hs];
    destruct m, s; try done; simpl; auto.
Qed.

Lemma preprocessed_row_values
    (ticker start_date end_date : string) (r : StockRow) :
  r ∈ preprocess_data np_sqrt yf_download ticker start_date end_date ->
  is_fin (SMA r) /\ is_fin (BB_Upper r) /\ is_fin (BB_Lower r)
  /\ is_fin (MACD r) /\ is_fin (Signal_Line r)
  /\ (exists rs, RSI r = Fin rs /\ (0 <= rs <= 100)%Q)
  /\ Returns r <> NaN.
Proof.
  intros Hr. apply preprocess_data_row in Hr as (Hna & i & Hi).
  set (data := yf_download ticker start_date end_date) in *.
  apply with_indicators_lookup in Hi
    as (Hb & _ & _ & Hsma & Hrsi & Hbu & Hbl & Hmacd & Hsig).
  apply row_has_na_false in Hna
    as (Hnret & Hnsma & Hnrsi & Hnbu & Hnbl & Hnmacd & Hnsig).
  assert (Hfin_sma : is_fin (SMA r)).
  { destruct (at_row_cases (sma data 14) i) as [E|E]; rewrite <- Hsma in E;
      [done|].
    by destruct (rolling_fin_or_nan _ _ _ _ _ mean_fin_or_nan E). }
  assert (Hfin_bb : is_fin (BB_Upper r) /\ is_fin (BB_Lower r)).
  { destruct (at_row_cases (fst (bollinger_bands np_sqrt data 14)) i) as [E|E];
      rewrite <- Hbu in E; [done|].
    destruct (at_row_cases (snd (bollinger_bands np_sqrt data 14)) i) as [E'|E'];
      rewrite <- Hbl in E'; [done|].
    destruct (bollinger_entry_fin_or_nan _ _ _ _ _ E E') as [[?|?] [?|?]];
      done. }
  assert (Hfin_rsi : exists rs, RSI r = Fin rs /\ (0 <= rs <= 100)%Q).
  { destruct (at_row_cases (rsi data 14) i) as [E|E]; rewrite <- Hrsi in E;
      [done|].
    by destruct (rsi_entry_range _ _ _ _ E). }
  split; [exact Hfin_sma|]. split; [apply Hfin_bb|]. split; [apply Hfin_bb|].
  split; [by destruct (at_row_Fin (fst (macd data)) i) as [E|E];
            rewrite <- Hmacd in E|].
  split; [by destruct (at_row_Fin (snd (macd data)) i) as [E|E];
            rewrite <- Hsig in E|].
  split; [exact Hfin_rsi | exact Hnret].
Qed.

(** Every row [preprocess_data] returns carries finite indicators: the
    six indicator columns hold neither NaN nor an infinity, and the RSI
    lies in [0, 100].  ([Returns] is not NaN either, but it may be
    infinite, after a close of 0.) *)
Theorem preprocessed_indicators_finite
    (ticker start_date end_date : string) (r : StockRow) :
  r ∈ preprocess_data np_sqrt yf_download ticker start_date end_date ->
  is_fin (SMA r) /\ is_fin (BB_Upper r) /\ is_fin (BB_Lower r)
  /\ is_fin (MACD r) /\ is_fin (Signal_Line r)
  /\ (exists rs, RSI r = Fin rs /\ (0 <= rs <= 100)%Q)
  /\ Returns r <> NaN.
Proof. apply preprocessed_row_values. Qed.


End PreprocessValues.

(* ===================================================================== *)
(** ** Further facts: [main] *)
(* ===================================================================== *)

Lemma test_size_arith (n : nat) :
  ((n - (n + 4) / 5 =? 0) = true <-> n < 2)%nat.
Proof.
  rewrite Nat.eqb_eq.
  pose proof (Nat.div_mod_eq (n + 4) 5) as Hq.
  pose proof (Nat.mod_upper_bound (n + 4) 5) as Hr.
  lia.
Qed.

Lemma finite_values_is_fin (xs : list fval) :
  Forall is_fin xs -> is_Some (finite_values xs).
Proof.
  induction 1 as [|x xs Hx _ [qs IH]]; [by eexists|].
  destruct x; try done. simpl. rewrite IH. by eexists.
Qed.

Lemma filter_all {A} (P : A -> Prop) `{forall x, Decision (P x)} (l : list A) :
  Forall P l -> filter P l = l.
Proof.
  induction 1 as [|x l Hx _ IH]; [done|].
  by rewrite filter_cons_True, IH.
Qed.

Lemma bind_singleton {A B} (f : A -> B) (l : list A) :
  l ≫= (fun x => [f x]) = f <$> l.
Proof.
  induction l as [|x l IH]; [done|]. csimpl. by rewrite IH.
Qed.

(** Among headlines made from the rows of a table whose dates are all
    different, exactly one carries the date of a given row. *)
Lemma own_headline_only (rows : list StockRow) (text : string) :
  NoDup ((fun r => Date (bar r)) <$> rows) ->
  Forall (fun s =>
            filter (fun n => news_Date n = Date (bar s))
                   ((fun r => mkNews (Date (bar r)) text) <$> rows)
            = [mkNews (Date (bar s)) text]) rows.
Proof.
  induction rows as [|r rows IH]; intros Hnd; [constructor|].
  csimpl in Hnd. apply NoDup_cons in Hnd as [Hr Hnd].
  constructor.
  - csimpl. rewrite filter_cons_True by done. f_equal.
    apply elem_of_nil_inv. intros n Hn.
    apply list_elem_of_filter in Hn as [Hd Hn].
    apply list_elem_of_fmap in Hn as (r' & -> & Hr'). simpl in Hd.
    apply Hr. rewrite <- Hd. apply list_elem_of_fmap. by exists r'.
  - apply Forall_forall. intros s Hs.
    pose proof (IH Hnd) as IH'. rewrite Forall_forall in IH'.
    csimpl. rewrite filter_cons_False; [by apply IH'|].
    simpl. intros Hd. apply Hr. rewrite Hd.
    apply list_elem_of_fmap. by exists s.
Qed.

(** Joining a table with one headline per row of that same table, on
    dates that are all different, pairs every row with its own headline
    and nothing else. *)
Lemma merge_on_own_dates (rows : list StockRow) (text : string) :
  NoDup ((fun r => Date (bar r)) <$> rows) ->
  merge_on_Date rows ((fun r => mkNews (Date (bar r)) text) <$> rows)
  = (fun r => (r, text)) <$> rows.
Proof.
  intros Hnd. unfold merge_on_Date.
  rewrite (Forall_bind_ext _ (fun r => [(r, text)])).
  - apply bind_singleton.
  - eapply Forall_impl; [apply (own_headline_only rows text Hnd)|].
    intros s Hs. simpl in Hs. by rewrite Hs.
Qed.

Lemma merge_on_Date_elem (left : list StockRow) (right : list NewsRow)
    (s : StockRow) (h : string) :
  (s, h) ∈ merge_on_Date left right ->
  s ∈ left /\ exists n, n ∈ right /\ h = Headline n.
Proof.
  unfold merge_on_Date. intros Hp.
  apply list_elem_of_bind in Hp as (s' & Hp & Hs').
  apply list_elem_of_bind in Hp as (n & Hp & Hn).
  apply list_elem_of_singleton in Hp. injection Hp as -> ->.
  apply list_elem_of_filter in Hn as [_ Hn]. split; [done|]. by exists n.
Qed.

Lemma length_merge_at_most_one (rows : list StockRow) (text : string) :
  (length rows <= 1)%nat ->
  (length (merge_on_Date rows
             ((fun r => mkNews (Date (bar r)) text) <$> rows)) <= 1)%nat.
Proof.
  intros Hlen. destruct rows as [|r [|r' rows]]; simpl in Hlen; [done| |lia].
  rewrite merge_on_own_dates; [done|].
  csimpl. apply NoDup_singleton.
Qed.

Lemma finite_values_length (xs : list fval) (qs : list Q) :
  finite_values xs = Some qs -> length qs = length xs.
Proof.
  revert qs. induction xs as [|x xs IH]; intros qs; simpl.
  - by intros [= <-].
  - destruct x; try done. destruct (finite_values xs) as [qs'|]; [|done].
    csimpl. intros [= <-]. simpl. by rewrite (IH qs').
Qed.

Section MainShape.

Variable np_sqrt : Q -> Q.
Variable yf_download : string -> string -> string -> list PriceBar.
Variable compound : string -> Q.
Variable today : string.
Variable permutation : nat -> list nat.
Variable grid_search_best : string -> DataFrame Q -> list Z -> Classifier.

Abbreviation main_ := (main np_sqrt yf_download compound today permutation).
Abbreviation loop_body_ := (loop_body compound grid_search_best).
Abbreviation merged_table_ := (merged_table np_sqrt yf_download today).
Abbreviation preprocessed_ ticker :=
  (preprocess_data np_sqrt yf_download ticker "1993-02-01" today).

Abbreviation scored_ := (scored compound).

Lemma merged_table_row (stock_ticker : string) (p : StockRow * string) :
  p ∈ merged_table_ stock_ticker ->
  p.1 ∈ preprocessed_ stock_ticker /\ p.2 = "Sample headline".
Proof.
  unfold merged_table. intros Hp.
  apply list_elem_of_filter in Hp as [_ Hp]. destruct p as [s h].
  apply merge_on_Date_elem in Hp as (Hs & n & Hn & ->).
  apply list_elem_of_fmap in Hn as (r & -> & _). by split.
Qed.

(** The raw feature matrix always passes the scaler's input check: it has
    one row of seven finite numbers per merged row, the first of them the
    score of the placeholder headline. *)
Lemma merged_features_finite (stock_ticker : string) :
  exists raw,
    check_array (feature_row <$> (scored_ <$> merged_table_ stock_ticker))
    = Some raw
    /\ length raw = length (merged_table_ stock_ticker)
    /\ Forall (fun row => length row = 7%nat
                          /\ row !! 0%nat = Some (compound "Sample headline"))
              raw.
Proof.
  unfold check_array.
  assert (Hrows : Forall (fun m => exists t,
              feature_row m = Fin (compound "Sample headline") :: t
              /\ length t = 6%nat /\ Forall is_fin t)
            (scored_ <$> merged_table_ stock_ticker)).
  { apply Forall_fmap, Forall_forall. intros p Hp.
    apply merged_table_row in Hp as [Hs Hh].
    destruct (preprocessed_row_values _ _ _ _ _ _ Hs)
      as (H1 & H2 & H3 & H4 & H5 & (rs & H6 & _) & _).
    unfold compose, scored, feature_row. simpl. rewrite Hh, H6.
    eexists. split; [done|]. split; [done|].
    repeat (constructor; [done|]). constructor. }
  destruct (mapM_is_Some_2 finite_values
              (feature_row <$> (scored_ <$> merged_table_ stock_ticker)))
    as [raw Hraw].
  { apply Forall_fmap. eapply Forall_impl; [exact Hrows|].
    intros m (t & Ht & _ & Hfin). unfold compose. rewrite Ht.
    apply finite_values_is_fin. by constructor. }
  exists raw. split; [done|]. split.
  { apply length_mapM in Hraw. by rewrite !length_fmap in Hraw. }
  apply mapM_Some_1 in Hraw.
  apply Forall2_fmap_l in Hraw.
  eapply Forall2_Forall_r; [exact Hraw|].
  eapply Forall_impl; [exact Hrows|].
  intros m (t & Ht & Hlen & _) row. unfold compose. rewrite Ht. simpl.
  destruct (finite_values t) as [qs|] eqn:E; [|done]. csimpl.
  intros [= <-]. apply finite_values_length in E. simpl. split; [lia | done].
Qed.

(** [main] raises exactly when fewer than two rows reach the feature
    matrix (the scaler refuses an empty matrix, the split an empty
    training set); a download of fewer than 15 bars always ends so. *)
Theorem main_needs_two_rows (stock_ticker news_headline : string) :
  (main np_sqrt yf_download compound today permutation
        stock_ticker news_headline = None
   <-> (length (merged_table np_sqrt yf_download today stock_ticker) < 2)%nat)
  /\ ((length (yf_download stock_ticker "1993-02-01" today) < 15)%nat ->
      main np_sqrt yf_download compound today permutation
           stock_ticker news_headline = None).
Proof.
  assert (Hiff : main_ stock_ticker news_headline = None
                 <-> (length (merged_table_ stock_ticker) < 2)%nat).
  { unfold main, prepare_features. rewrite select_feature_columns. csimpl.
    fold (merged_table_ stock_ticker). fold (scored compound).
    destruct (merged_features_finite stock_ticker) as (raw & -> & Hlen & _).
    csimpl. rewrite <- Hlen.
    destruct (MinMaxScaler_fit raw) as [sc|] eqn:Hfit; csimpl.
    - unfold train_test_split, MinMaxScaler_transform.
      rewrite !length_fmap.
      destruct (_ =? 0)%nat eqn:E.
      + split; [intros _; by apply test_size_arith | done].
      + csimpl. split; [done|]. intros Hlt.
        apply test_size_arith in Hlt. congruence.
    - split; [|done]. intros _.
      destruct raw; [simpl; lia | done]. }
  split; [exact Hiff|]. intros Hshort. apply Hiff.
  unfold merged_table.
  pose proof (length_preprocess_data np_sqrt yf_download
                stock_ticker "1993-02-01" today) as Hpre.
  assert (Hle : (length (preprocessed_ stock_ticker) <= 1)%nat) by lia.
  pose proof (length_merge_at_most_one _ "Sample headline" Hle) as Hm.
  eapply Nat.le_lt_trans; [apply length_filter|]. lia.
Qed.

Lemma main_tables (stock_ticker news_headline : string) (L : MainLocals) :
  main_ stock_ticker news_headline = Some L ->
  stock_data L = preprocessed_ stock_ticker
  /\ merged_data L = scored_ <$> merged_table_ stock_ticker.
Proof.
  unfold main, prepare_features. rewrite select_feature_columns. csimpl.
  fold (merged_table_ stock_ticker). fold (scored compound). intros H.
  destruct (check_array _) as [raw|]; [|done]. csimpl in H.
  destruct (MinMaxScaler_fit raw) as [sc|]; [|done]. csimpl in H.
  destruct (train_test_split _ _ _) as [[[[xtr xte] ytr] yte]|]; [|done].
  csimpl in H. injection H as <-. by simpl.
Qed.

Lemma main_raw_rows (stock_ticker news_headline : string) (L : MainLocals) :
  main_ stock_ticker news_headline = Some L ->
  exists raw,
    MinMaxScaler_fit raw = Some (scaler L)
    /\ X_scaled L = MinMaxScaler_transform (scaler L) raw
    /\ values (X L) = X_scaled L
    /\ length raw = length (merged_table_ stock_ticker)
    /\ Forall (fun row => length row = 7%nat
                          /\ row !! 0%nat = Some (compound "Sample headline"))
              raw.
Proof.
  intros Hmain.
  destruct (main_inv _ _ _ _ _ _ _ _ Hmain)
    as (raw & _ & Hcheck & Hfit & Hscaled & HX & _).
  destruct (main_tables _ _ _ Hmain) as [_ Hmd].
  destruct (merged_features_finite stock_ticker) as (raw' & Hraw' & Hlen & Hrows).
  rewrite Hmd, Hraw' in Hcheck. injection Hcheck as ->.
  exists raw. rewrite HX. by repeat split.
Qed.



(** With one bar per date in the download, the join with the placeholder
    headlines changes nothing: the merged table is the preprocessed table,
    row for row, and features and labels have one row each per
    preprocessed row. *)
Theorem join_keeps_every_row
    (stock_ticker news_headline : string) (L : MainLocals) :
  NoDup (Date <$> yf_download stock_ticker "1993-02-01" today) ->
  main_ stock_ticker news_headline = Some L ->
  stock <$> merged_data L = preprocessed_ stock_ticker
  /\ y L = Direction <$> preprocessed_ stock_ticker
  /\ length (values (X L)) = length (preprocessed_ stock_ticker).
Proof.
  intros Hnd Hmain.
  destruct (main_tables _ _ _ Hmain) as [_ Hmd].
  destruct (main_raw_rows _ _ _ Hmain) as (raw & _ & Hscaled & HX & Hlen & _).
  destruct (main_inv _ _ _ _ _ _ _ _ Hmain) as (_ & _ & _ & _ & _ & _ & Hy & _).
  assert (Hmerged : merged_table_ stock_ticker
            = (fun r => (r, "Sample headline")) <$> preprocessed_ stock_ticker).
  { unfold merged_table. rewrite merge_on_own_dates.
    - apply filter_all, Forall_fmap, Forall_forall. intros r Hr.
      by apply preprocess_data_row in Hr as [? _].
    - rewrite (list_fmap_compose bar Date).
      eapply sublist_NoDup; [exact Hnd|].
      apply fmap_sublist, preprocess_data_sublist. }
  split; [|split].
  - rewrite Hmd, Hmerged, <- !list_fmap_compose. apply list_fmap_id.
  - rewrite Hy, Hmd, Hmerged, <- !list_fmap_compose. done.
  - rewrite HX, Hscaled. unfold MinMaxScaler_transform.
    by rewrite length_fmap, Hlen, Hmerged, length_fmap.
Qed.

(** The scaler's parameters for a column that holds the same number [c]
    in every row: scale 1 and offset [-c]. *)
Lemma constant_column_scaler
    (Xs : list (list Q)) (sc : MinMaxScaler) (n j : nat) (c : Q) :
  Forall (fun row => length row = n /\ row !! j = Some c) Xs ->
  MinMaxScaler_fit Xs = Some sc -> (j < n)%nat ->
  exists k m,
    scale_ sc !! j = Some k /\ min_ sc !! j = Some m
    /\ (k == 1)%Q /\ (m == - c)%Q.
Proof.
  intros Hrows Hfit Hj.
  assert (Hrect : Forall (fun row => length row = n) Xs)
    by (eapply Forall_impl; [exact Hrows|]; by intros row [? _]).
  destruct (MinMaxScaler_fit_column Xs sc n j Hrect Hfit Hj)
    as (mn & mx & _ & _ & Hk & Hm & _ & Hmin & Hmax).
  rewrite Forall_forall in Hrows.
  assert (Hmn : (mn == c)%Q).
  { destruct Hmin as (row & x & Hrow & Hx & Heq).
    destruct (Hrows row Hrow) as [_ Hc]. rewrite Hc in Hx.
    injection Hx as <-. by symmetry. }
  assert (Hmx : (mx == c)%Q).
  { destruct Hmax as (row & x & Hrow & Hx & Heq).
    destruct (Hrows row Hrow) as [_ Hc]. rewrite Hc in Hx.
    injection Hx as <-. by symmetry. }
  eexists _, _. split; [exact Hk|]. split; [exact Hm|].
  unfold handle_zeros_in_scale.
  destruct (Qle_bool (10 * float_eps) (mx - mn)) eqn:E.
  { apply Qle_bool_iff in E. destruct ten_eps_small as [Hpos _]. lra. }
  split; [field | rewrite Hmn; field].
Qed.

(** Every row of [main] carries the same placeholder headline, so the
    [Sentiment] column of the scaled matrix is 0 in every row, and the
    loop hands the classifier the new headline's score minus the
    placeholder's as the sentiment feature. *)
Theorem sentiment_column_is_constant
    (stock_ticker news_headline : string) (L : MainLocals) :
  main_ stock_ticker news_headline = Some L ->
  Forall (fun row => exists s, row !! 0%nat = Some s /\ (s == 0)%Q)
         (values (X L))
  /\ (forall headline model_name rep,
        loop_body_ L headline model_name = Some rep ->
        exists row s,
          report_scaled_input rep = [row] /\ row !! 0%nat = Some s
          /\ (s == compound headline - compound "Sample headline")%Q).
Proof.
  intros Hmain.
  destruct (main_raw_rows _ _ _ Hmain)
    as (raw & Hfit & Hscaled & HX & Hlen & Hrows).
  destruct (constant_column_scaler raw (scaler L) 7 0
              (compound "Sample headline") Hrows Hfit)
    as (k & m & Hk & Hm & Hk1 & Hmc); [lia|].
  split.
  - rewrite HX, Hscaled. unfold MinMaxScaler_transform.
    apply Forall_fmap, Forall_forall. intros r Hr.
    rewrite Forall_forall in Hrows. destruct (Hrows r Hr) as [_ Hc].
    eexists. split.
    + apply transform_row_lookup. by eexists _, k, m.
    + rewrite Hk1, Hmc. ring.
  - intros headline model_name rep Hrep.
    destruct (loop_body_inv _ _ _ _ _ _ Hrep) as (v & p0 & Hv & Hin & _).
    destruct (main_inv _ _ _ _ _ _ _ _ Hmain)
      as (_ & _ & _ & _ & _ & _ & _ & _ & Hcte & _).
    destruct (prediction_row_spec _ _ _ Hcte Hv) as [_ Hv0].
    specialize (Hv0 0%nat "Sentiment" eq_refl).
    rewrite decide_True in Hv0 by done.
    eexists _, _. split; [exact Hin|]. split.
    + apply transform_row_lookup. by eexists _, k, m.
    + rewrite Hk1, Hmc. ring.
Qed.

End MainShape.

(* ===================================================================== *)
(** ** Further facts: the train/test split *)
(* ===================================================================== *)

Lemma take_rows_seq_from {A} (pre l : list A) :
  take_rows (pre ++ l) (seq (length pre) (length l)) = l.
Proof.
  revert pre. induction l as [|x l IH]; intros pre; [done|].
  unfold take_rows in *. csimpl.
  rewrite lookup_app_r, Nat.sub_diag by lia. csimpl. f_equal.
  specialize (IH (pre ++ [x])).
  rewrite <- app_assoc, length_app in IH. csimpl in IH.
  by rewrite Nat.add_1_r in IH.
Qed.

Lemma take_rows_all {A} (l : list A) : take_rows l (seq 0 (length l)) = l.
Proof. apply (take_rows_seq_from [] l). Qed.

Lemma take_rows_zip {A B} (Xs : list A) (ys : list B) (idx : list nat) :
  length Xs = length ys ->
  take_rows (zip Xs ys) idx = zip (take_rows Xs idx) (take_rows ys idx).
Proof.
  intros Hlen. unfold take_rows.
  induction idx as [|i idx IH]; [done|]. csimpl. rewrite IH.
  destruct (Xs !! i) as [x|] eqn:Ex, (ys !! i) as [y|] eqn:Ey.
  - by rewrite (proj2 (lookup_zip_Some Xs ys i x y)).
  - apply lookup_lt_Some in Ex. apply lookup_ge_None in Ey. lia.
  - apply lookup_lt_Some in Ey. apply lookup_ge_None in Ex. lia.
  - by rewrite (proj2 (lookup_zip_None Xs ys i)) by (by left).
Qed.

Section SplitFacts.

Variable permutation : nat -> list nat.

Lemma train_test_split_deals_once {A B} (Xs : list A) (ys : list B)
    (xtr xte : list A) (ytr yte : list B) :
  permutation (length Xs) ≡ₚ seq 0 (length Xs) ->
  length ys = length Xs ->
  train_test_split permutation Xs ys = Some (xtr, xte, ytr, yte) ->
  zip xte yte ++ zip xtr ytr ≡ₚ zip Xs ys
  /\ length xte = ((length Xs + 4) / 5)%nat
  /\ length yte = length xte /\ length ytr = length xtr
  /\ (0 < length xtr)%nat.
Proof.
  intros Hperm Hlen. unfold train_test_split.
  set (n := length Xs) in *. set (n_test := ((n + 4) / 5)%nat).
  destruct (n - n_test =? 0)%nat eqn:E; [done|].
  apply Nat.eqb_neq in E. intros [= <- <- <- <-].
  set (perm := permutation n) in *.
  assert (Hplen : length perm = n)
    by (rewrite (Permutation_length Hperm); apply length_seq).
  assert (Hidx : take n_test perm ++ take (n - n_test) (drop n_test perm)
                 = perm).
  { rewrite take_take_drop. apply take_ge. lia. }
  assert (Hall : forall {C} (l : list C), length l = n ->
            take_rows l perm ≡ₚ l).
  { intros C l Hl. rewrite <- (take_rows_all l) at 2. rewrite Hl.
    unfold take_rows. by apply omap_Permutation. }
  assert (Hrows : forall {C} (l : list C) k, length l = n ->
            length (take_rows l (take k perm)) = (k `min` n)%nat
            /\ length (take_rows l (take k (drop n_test perm)))
               = (k `min` (n - n_test))%nat).
  { intros C l k Hl.
    assert (Hfull : forall idx, Forall (fun i => (i < n)%nat) idx ->
              length (take_rows l idx) = length idx).
    { induction 1 as [|i idx Hi _ IH]; [done|]. unfold take_rows in *.
      csimpl. destruct (lookup_lt_is_Some_2 l i) as [x ->]; [lia|].
      simpl. by rewrite IH. }
    assert (Hin : Forall (fun i => (i < n)%nat) perm).
    { apply Forall_forall. intros i Hi. rewrite Hperm in Hi.
      apply elem_of_seq in Hi. lia. }
    split.
    - rewrite Hfull by (by apply Forall_take).
      rewrite length_take. lia.
    - rewrite Hfull by (by apply Forall_take, Forall_drop).
      rewrite length_take, length_drop. lia. }
  split.
  { rewrite <- !take_rows_zip by done.
    unfold take_rows. rewrite <- omap_app, Hidx.
    apply Hall. rewrite length_zip. fold n. lia. }
  destruct (Hrows _ Xs n_test eq_refl) as [Hxte _].
  destruct (Hrows _ ys n_test Hlen) as [Hyte _].
  destruct (Hrows _ Xs (n - n_test)%nat eq_refl) as [_ Hxtr].
  destruct (Hrows _ ys (n - n_test)%nat Hlen) as [_ Hytr].
  rewrite Hxte, Hyte, Hxtr, Hytr. lia.
Qed.

Variable np_sqrt : Q -> Q.
Variable yf_download : string -> string -> string -> list PriceBar.
Variable compound : string -> Q.
Variable today : string.

(** With a shuffle that is a permutation of the positions, the split in
    [main] deals out every (feature row, label) pair exactly once: test
    pairs and training pairs together are the pairs of [X] and [y], a
    label never leaves its row, the test set has [ceil(n / 5)] rows and
    the training set is not empty. *)
Theorem split_partitions_rows_and_labels
    (stock_ticker news_headline : string) (L : MainLocals) :
  permutation (length (values (X L))) ≡ₚ seq 0 (length (values (X L))) ->
  main np_sqrt yf_download compound today permutation
       stock_ticker news_headline = Some L ->
  zip (values (X_test L)) (y_test L) ++ zip (values (X_train L)) (y_train L)
  ≡ₚ zip (values (X L)) (y L)
  /\ length (values (X_test L)) = ((length (values (X L)) + 4) / 5)%nat
  /\ length (y_test L) = length (values (X_test L))
  /\ length (y_train L) = length (values (X_train L))
  /\ (0 < length (values (X_train L)))%nat.
Proof.
  intros Hperm Hmain.
  destruct (main_inv _ _ _ _ _ _ _ _ Hmain)
    as (raw & _ & Hcheck & _ & Hscaled & HX & Hy & _ & _ & Hsplit).
  assert (HXv : values (X L) = X_scaled L) by (by rewrite HX).
  rewrite HXv in *.
  apply (train_test_split_deals_once _ _ _ _ _ _ Hperm); [|exact Hsplit].
  rewrite Hy, Hscaled. unfold MinMaxScaler_transform.
  unfold check_array in Hcheck. apply length_mapM in Hcheck.
  rewrite !length_fmap in *. done.
Qed.

End SplitFacts.

(* ===================================================================== *)
(** ** Further facts: the scaler on a new row *)
(* ===================================================================== *)


(* ===================================================================== *)
(** ** Further facts: the call of [main] *)
(* ===================================================================== *)

Lemma keeps_module_load (x : string) : keeps_module (load x).
Proof. intros st Hf. unfold load. by destruct (bound x st). Qed.

Lemma keeps_module_store (x : string) : keeps_module (store x).
Proof.
  intros st Hf. unfold store. by destruct (frames st) as [|locals outer].
Qed.

Lemma keeps_module_ret : keeps_module (ret ()).
Proof. by intros st Hf. Qed.

Lemma keeps_module_bind (m k : Exec unit) :
  keeps_module m -> keeps_module k -> keeps_module (m ;; k).
Proof.
  intros Hm Hk st Hf. destruct (Hm st Hf) as (Hg & Ht & Hn).
  unfold mbind, Exec_bind, bind.
  destruct (m st) as [[e|[]] st'] eqn:E; simpl in *; [done|].
  destruct (Hk st' Hn) as (Hg' & Ht' & Hn').
  split; [congruence|]. split; [congruence | done].
Qed.

Lemma keeps_module_loads (xs : list string) : keeps_module (loads xs).
Proof.
  induction xs as [|x xs IH]; [apply keeps_module_ret|].
  apply keeps_module_bind; [apply keeps_module_load | exact IH].
Qed.

Lemma keeps_module_stores (xs : list string) : keeps_module (stores xs).
Proof.
  induction xs as [|x xs IH]; [apply keeps_module_ret|].
  apply keeps_module_bind; [apply keeps_module_store | exact IH].
Qed.

Lemma keeps_module_main_body : keeps_module main_body.
Proof.
  unfold main_body.
  repeat (apply keeps_module_bind;
          [first [apply keeps_module_load | apply keeps_module_store
                 | apply keeps_module_loads | apply keeps_module_stores]|]).
  first [apply keeps_module_stores | apply keeps_module_ret].
Qed.

(** Whatever the state it is called in, a call of [main] binds no name at
    module level: when it returns (or raises) the module's namespace is
    what it was, and when it returns its own namespace is gone, so no
    later statement of the module can read [X_train], [scaler] or any
    other name of [main]. *)
Theorem main_binds_no_module_name (st : Interp) :
  let after := call ["stock_ticker"; "news_headline"] main_body st in
  globals (snd after) = globals st
  /\ (fst after = inr () -> frames (snd after) = frames st).
Proof.
  cbv zeta. unfold call.
  set (entered := mkInterp _ _ _ _).
  destruct (keeps_module_main_body entered) as (Hg & Ht & _); [done|].
  destruct (main_body entered) as [[e|[]] st'] eqn:E; simpl in *.
  - split; [exact Hg | done].
  - split; [exact Hg|]. intros _. exact Ht.
Qed.

(* ===================================================================== *)
(** ** Further facts: moving averages stay within the prices *)
(* ===================================================================== *)

Lemma alpha_of_span_range (span : Z) :
  (1 <= span)%Z ->
  (0 < alpha_of_span span)%Q /\ (alpha_of_span span <= 1)%Q.
Proof.
  intros Hs. unfold alpha_of_span.
  assert (Hd : (2 <= inject_Z span + 1)%Q).
  { assert (1 <= inject_Z span)%Q; [|lra].
    change 1%Q with (inject_Z 1). by rewrite <- Zle_Qle. }
  split.
  - apply Qlt_shift_div_l; lra.
  - apply Qle_shift_div_r; lra.
Qed.

(** A weighted mean of two numbers of an interval lies in the interval. *)
Lemma convex_step (alpha e x lo hi : Q) :
  (0 <= alpha)%Q -> (alpha <= 1)%Q ->
  (lo <= e <= hi)%Q -> (lo <= x <= hi)%Q ->
  (lo <= (1 - alpha) * e + alpha * x <= hi)%Q.
Proof.
  intros Ha0 Ha1 [He1 He2] [Hx1 Hx2].
  assert (H1 : (0 <= (1 - alpha) * (e - lo))%Q)
    by (apply Qmult_le_0_compat; lra).
  assert (H2 : (0 <= alpha * (x - lo))%Q)
    by (apply Qmult_le_0_compat; lra).
  assert (H3 : (0 <= (1 - alpha) * (hi - e))%Q)
    by (apply Qmult_le_0_compat; lra).
  assert (H4 : (0 <= alpha * (hi - x))%Q)
    by (apply Qmult_le_0_compat; lra).
  assert (E1 : ((1 - alpha) * e + alpha * x
                == lo + ((1 - alpha) * (e - lo) + alpha * (x - lo)))%Q) by ring.
  assert (E2 : ((1 - alpha) * e + alpha * x
                == hi - ((1 - alpha) * (hi - e) + alpha * (hi - x)))%Q) by ring.
  split; [rewrite E1 | rewrite E2]; lra.
Qed.

Lemma EMA_within (alpha : Q) (xs : list Q) (lo hi : Q) (t : nat) :
  (0 <= alpha)%Q -> (alpha <= 1)%Q ->
  (forall k, (k <= t)%nat -> (lo <= nth k xs 0 <= hi)%Q) ->
  (lo <= EMA alpha xs t <= hi)%Q.
Proof.
  intros Ha0 Ha1. induction t as [|t IH]; intros Hxs.
  - apply (Hxs 0%nat). lia.
  - change (EMA alpha xs (S t))
      with ((1 - alpha) * EMA alpha xs t + alpha * nth (S t) xs 0)%Q.
    apply convex_step; [done | done | |].
    + apply IH. intros k Hk. apply Hxs. lia.
    + apply Hxs. lia.
Qed.

(** While every close of the table lies between [lo] and [hi], MACD and
    its signal line lie between [lo - hi] and [hi - lo] at every row:
    neither can move further from 0 than the price range is wide. *)
Theorem macd_within_price_range
    (data : list PriceBar) (lo hi : Q) (t : nat) (m s : Q) :
  Forall (fun b => (lo <= Close b <= hi)%Q) data ->
  fst (macd data) !! t = Some m ->
  snd (macd data) !! t = Some s ->
  (lo - hi <= m <= hi - lo)%Q /\ (lo - hi <= s <= hi - lo)%Q.
Proof.
  intros Hdata Hm Hs.
  assert (Hcloses : forall k, (k < length data)%nat ->
            (lo <= nth k (close_column data) 0 <= hi)%Q).
  { intros k Hk. destruct (lookup_lt_is_Some_2 data k Hk) as [b Hb].
    unfold close_column.
    rewrite (nth_lookup_Some _ _ _ (Close b))
      by (by rewrite list_lookup_fmap, Hb).
    rewrite Forall_forall in Hdata. apply Hdata.
    by eapply list_elem_of_lookup_2. }
  assert (Hmacd : forall k x, fst (macd data) !! k = Some x ->
            (lo - hi <= x <= hi - lo)%Q).
  { intros k x Hx.
    assert (Hk : (k < length data)%nat)
      by (apply lookup_lt_Some in Hx; by rewrite length_macd in Hx).
    assert (Hc : (k < length (close_column data))%nat)
      by (unfold close_column; by rewrite length_fmap).
    unfold macd in Hx. cbn [fst] in Hx.
    rewrite lookup_zip_with, !ewm_mean_lookup in Hx by done.
    injection Hx as <-.
    destruct (alpha_of_span_range 12) as [? ?]; [lia|].
    destruct (alpha_of_span_range 26) as [? ?]; [lia|].
    assert (lo <= EMA (alpha_of_span 12) (close_column data) k <= hi)%Q
      by (apply EMA_within; [lra | done |]; intros; apply Hcloses; lia).
    assert (lo <= EMA (alpha_of_span 26) (close_column data) k <= hi)%Q
      by (apply EMA_within; [lra | done |]; intros; apply Hcloses; lia).
    lra. }
  split; [by apply (Hmacd t)|].
  assert (Ht : (t < length (fst (macd data)))%nat)
    by (by apply lookup_lt_Some in Hm).
  unfold macd in Hs at 1. cbn [snd] in Hs.
  change (zip_with Qminus _ _) with (fst (macd data)) in Hs.
  rewrite ewm_mean_lookup in Hs by done. injection Hs as <-.
  destruct (alpha_of_span_range 9) as [? ?]; [lia|].
  apply EMA_within; [lra | done |].
  intros k Hk.
  destruct (lookup_lt_is_Some_2 (fst (macd data)) k) as [x Hx]; [lia|].
  rewrite (nth_lookup_Some _ _ _ _ Hx). by apply (Hmacd k).
Qed.

(* ===================================================================== *)
(** ** Further facts: when the RSI is undefined *)
(* ===================================================================== *)

Lemma finite_values_Some (xs : Series) (qs : list Q) :
  finite_values xs = Some qs -> xs = Fin <$> qs.
Proof.
  revert qs. induction xs as [|x xs IH]; intros qs; simpl.
  - by intros [= <-].
  - destruct x; try done. destruct (finite_values xs) as [qs'|]; [|done].
    csimpl. intros [= <-]. csimpl. by rewrite (IH qs').
Qed.

Lemma Qsum_zero_iff (qs : list Q) :
  Forall (Qle 0) qs ->
  ((Qsum qs == 0)%Q <-> Forall (fun q => (q == 0)%Q) qs).
Proof.
  induction 1 as [|q qs Hq Hqs IH].
  - split; [constructor | reflexivity].
  - rewrite Qsum_cons. pose proof (Qsum_nonneg qs Hqs) as Hs. split.
    + intros H. constructor; [lra|]. apply IH. lra.
    + intros H. apply Forall_cons in H as [H0 H]. apply IH in H. lra.
Qed.

(** A rolling mean over finite non-negative entries, at a full window, is
    a finite non-negative number, and it is 0 exactly when every entry of
    the window is. *)
Lemma rolling_mean_zero_iff (w : nat) (s : Series) (i : nat) :
  Forall nonneg_fin s ->
  (0 < w)%nat -> (w <= i + 1)%nat -> (i < length s)%nat ->
  exists m,
    rolling w mean s !! i = Some (Fin m) /\ (0 <= m)%Q
    /\ ((m == 0)%Q <->
        forall k, (i + 1 - w <= k <= i)%nat ->
                  exists q, s !! k = Some (Fin q) /\ (q == 0)%Q).
Proof.
  intros Hs Hw Hwi Hi.
  destruct (finite_values_nonneg (window_at w i s)) as (win & Hwin & Hpos & Hlen).
  { unfold window_at. by apply Forall_take, Forall_drop. }
  assert (Hwlen : length win = w).
  { rewrite Hlen. unfold window_at.
    rewrite length_take_le; [done | rewrite length_drop; lia]. }
  assert (Hwindow : forall j, (j < w)%nat ->
            s !! (i + 1 - w + j)%nat = Fin <$> win !! j).
  { intros j Hj. apply finite_values_Some in Hwin.
    rewrite <- list_lookup_fmap, <- Hwin. unfold window_at.
    by rewrite lookup_take_lt, lookup_drop. }
  assert (Hn : (0 < inject_Z (Z.of_nat (length win)))%Q).
  { change 0%Q with (inject_Z 0). rewrite <- Zlt_Qlt. lia. }
  exists (Qsum win / inject_Z (Z.of_nat (length win)))%Q.
  split; [|split].
  - unfold rolling. rewrite list_lookup_imap.
    destruct (lookup_lt_is_Some_2 s i Hi) as [x ->]. simpl.
    destruct (Nat.ltb_spec (i + 1) w); [lia|]. rewrite Hwin.
    apply f_equal, mean_nonempty. intros ->. simpl in Hwlen. lia.
  - apply Qle_shift_div_l; [done|]. rewrite Qmult_0_l. by apply Qsum_nonneg.
  - assert (Hzero : (Qsum win / inject_Z (Z.of_nat (length win)) == 0)%Q
                    <-> (Qsum win == 0)%Q).
    { split; intros H.
      - assert (E : (Qsum win
                     == Qsum win / inject_Z (Z.of_nat (length win))
                        * inject_Z (Z.of_nat (length win)))%Q)
          by (field; lra).
        rewrite E, H. ring.
      - rewrite H. field. lra. }
    rewrite Hzero, (Qsum_zero_iff win Hpos), Forall_lookup. split.
    + intros H k Hk.
      assert (Hj : (k - (i + 1 - w) < w)%nat) by lia.
      pose proof (Hwindow _ Hj) as Hlk.
      replace (i + 1 - w + (k - (i + 1 - w)))%nat with k in Hlk by lia.
      destruct (lookup_lt_is_Some_2 win (k - (i + 1 - w))) as [q Hq]; [lia|].
      rewrite Hq in Hlk. exists q. split; [exact Hlk | by eapply H].
    + intros H j q Hq.
      assert (Hj : (j < w)%nat)
        by (apply lookup_lt_Some in Hq; lia).
      destruct (H (i + 1 - w + j)%nat) as (q' & Hq' & Hz); [lia|].
      rewrite (Hwindow j Hj), Hq in Hq'. by injection Hq' as <-.
Qed.

Lemma rsi_of_NaN_iff (g l : Q) :
  (0 <= g)%Q -> (0 <= l)%Q ->
  rsi_of (Fin g) (Fin l) = NaN <-> (g == 0)%Q /\ (l == 0)%Q.
Proof.
  intros Hg Hl. split.
  - intros H. destruct (Qlt_le_dec 0 l) as [Hpos|Hzero].
    { destruct (rsi_of_formula g l Hg Hpos) as [E _]. congruence. }
    assert (Hl0 : (l == 0)%Q) by lra.
    destruct (Qlt_le_dec 0 g) as [Hgpos|Hg0]; [|split; lra].
    rewrite rsi_of_zero_loss in H by done. discriminate.
  - intros [Hg0 Hl0]. unfold rsi_of. simpl.
    apply Qeq_bool_iff in Hl0. rewrite Hl0.
    assert (Hc : (g ?= 0)%Q = Eq) by (by apply Qeq_alt).
    by rewrite Hc.
Qed.

(** The price change at row [k] as [diff] has it. *)
Lemma diff_lookup (qs : list Q) (k : nat) (d : fval) :
  diff (Fin <$> qs) !! k = Some d ->
  match k with
  | O => d = NaN
  | S k' => d = Fin (nth k qs 0%Q + - nth k' qs 0%Q)
  end.
Proof.
  unfold diff. rewrite lookup_zip_with_Some.
  intros (x & p & -> & Hx & Hp).
  assert (Hk : (k < length (Fin <$> qs))%nat)
    by (by apply lookup_lt_Some in Hx).
  rewrite list_lookup_fmap in Hx.
  destruct (qs !! k) as [a|] eqn:Ea; [|done]. injection Hx as <-.
  destruct k as [|k'].
  - rewrite shift1_lookup_0 in Hp by lia. by injection Hp as <-.
  - rewrite shift1_lookup_S, list_lookup_fmap in Hp by done.
    destruct (qs !! k') as [b|] eqn:Eb; [|done]. injection Hp as <-.
    by rewrite (nth_lookup_Some _ _ _ _ Ea), (nth_lookup_Some _ _ _ _ Eb).
Qed.

(** The gain and the loss of one price change are both 0 exactly when the
    price did not move (or there is no earlier price). *)
Lemma gain_loss_zero_iff (qs : list Q) (k : nat) :
  (k < length qs)%nat ->
  exists g l,
    where_ (fun d => fgt d (Fin 0)) (Fin 0) (diff (Fin <$> qs)) !! k
    = Some (Fin g)
    /\ (fneg <$> where_ (fun d => flt d (Fin 0)) (Fin 0) (diff (Fin <$> qs)))
       !! k = Some (Fin l)
    /\ ((g == 0)%Q /\ (l == 0)%Q <->
        ((1 <= k)%nat -> (nth k qs 0%Q == nth (k - 1) qs 0%Q)%Q)).
Proof.
  intros Hk. unfold where_. rewrite !list_lookup_fmap.
  destruct (diff (Fin <$> qs) !! k) as [d|] eqn:Ed.
  2:{ apply lookup_ge_None in Ed. rewrite length_diff, length_fmap in Ed. lia. }
  apply diff_lookup in Ed. destruct k as [|k'].
  - subst d. simpl. eexists _, _. split; [done|]. split; [done|].
    split; [intros _ ?; lia | intros _; split; reflexivity].
  - subst d. simpl. rewrite Nat.sub_0_r.
    set (c := nth (S k') qs 0%Q). set (p := nth k' qs 0%Q).
    destruct (Qle_bool (c + - p) 0) eqn:E1, (Qle_bool 0 (c + - p)) eqn:E2;
      simpl; eexists _, _; (split; [done|]); (split; [done|]);
      try apply Qle_bool_iff in E1; try apply Qle_bool_iff in E2;
      try apply Qle_bool_false in E1; try apply Qle_bool_false in E2;
      split; try (intros [? ?]; intros; lra);
      intros H; specialize (H ltac:(lia)); split; lra.
Qed.

(** Past the warm-up, the RSI of a row is NaN (so [dropna] drops the row)
    exactly when the close did not move over the window that ends at the
    row: every close from row [i + 1 - w] on equals the one before it. *)
Theorem rsi_undefined_iff_flat (data : list PriceBar) (window i : nat) :
  (0 < window)%nat -> (window <= i + 1)%nat -> (i < length data)%nat ->
  rsi data window !! i = Some NaN
  <-> forall k, (i + 1 - window <= k <= i)%nat -> (1 <= k)%nat ->
        (nth k (close_column data) 0%Q
         == nth (k - 1) (close_column data) 0%Q)%Q.
Proof.
  intros Hw Hwi Hi.
  set (qs := close_column data).
  assert (Hlen : length qs = length data)
    by (unfold qs, close_column; by rewrite length_fmap).
  set (G := where_ (fun d => fgt d (Fin 0)) (Fin 0) (diff (Fin <$> qs))).
  set (Ls := fneg <$> where_ (fun d => flt d (Fin 0)) (Fin 0)
                             (diff (Fin <$> qs))).
  assert (HGlen : length G = length data)
    by (unfold G, where_; by rewrite length_fmap, length_diff, length_fmap).
  assert (HLlen : length Ls = length data)
    by (unfold Ls, where_; by rewrite !length_fmap, length_diff, length_fmap).
  destruct (rolling_mean_zero_iff window G i (gain_nonneg qs) Hw Hwi)
    as (g & Hg & Hg0 & Hgz); [lia|].
  destruct (rolling_mean_zero_iff window Ls i (loss_nonneg qs) Hw Hwi)
    as (l & Hl & Hl0 & Hlz); [lia|].
  assert (Hrsi : rsi data window !! i = Some (rsi_of (Fin g) (Fin l))).
  { apply rsi_lookup. by exists (Fin g), (Fin l). }
  rewrite Hrsi. split.
  - intros [= H]. apply rsi_of_NaN_iff in H as [Hgz' Hlz']; [|done|done].
    intros k Hk Hk1.
    destruct (gain_loss_zero_iff qs k) as (gk & lk & HGk & HLk & Hiff); [lia|].
    apply Hiff; [|done]. split.
    + destruct (proj1 Hgz Hgz' k Hk) as (q & Hq & Hz).
      fold G in HGk. rewrite HGk in Hq. by injection Hq as ->.
    + destruct (proj1 Hlz Hlz' k Hk) as (q & Hq & Hz).
      fold Ls in HLk. rewrite HLk in Hq. by injection Hq as ->.
  - intros Hflat. f_equal. apply rsi_of_NaN_iff; [done | done |].
    split.
    + apply Hgz. intros k Hk.
      destruct (gain_loss_zero_iff qs k) as (gk & lk & HGk & HLk & Hiff); [lia|].
      exists gk. split; [exact HGk|]. apply Hiff. intros Hk1. by apply Hflat.
    + apply Hlz. intros k Hk.
      destruct (gain_loss_zero_iff qs k) as (gk & lk & HGk & HLk & Hiff); [lia|].
      exists lk. split; [exact HLk|]. apply Hiff. intros Hk1. by apply Hflat.
Qed.

(* ===================================================================== *)
(** ** Further facts: the simple moving average stays within the prices *)
(* ===================================================================== *)

Lemma Qsum_between (lo hi : Q) (qs : list Q) :
  Forall (fun q => (lo <= q <= hi)%Q) qs ->
  (inject_Z (Z.of_nat (length qs)) * lo <= Qsum qs
   <= inject_Z (Z.of_nat (length qs)) * hi)%Q.
Proof.
  induction 1 as [|q qs [Hq1 Hq2] _ IH].
  - rewrite Qsum_nil.
    change (inject_Z (Z.of_nat (length (@nil Q)))) with 0%Q. lra.
  - rewrite Qsum_cons, length_cons, Nat2Z.inj_succ.
    unfold Z.succ. rewrite inject_Z_plus.
    set (n := inject_Z (Z.of_nat (length qs))) in *.
    assert (E1 : ((n + inject_Z 1) * lo == n * lo + lo)%Q) by ring.
    assert (E2 : ((n + inject_Z 1) * hi == n * hi + hi)%Q) by ring.
    rewrite E1, E2. lra.
Qed.

(** Where the SMA is defined it lies between the smallest and the largest
    close of the table. *)
Theorem sma_within_price_range
    (data : list PriceBar) (window i : nat) (lo hi : Q) (v : fval) :
  Forall (fun b => (lo <= Close b <= hi)%Q) data ->
  sma data window !! i = Some v -> v <> NaN ->
  exists m, v = Fin m /\ (lo <= m <= hi)%Q.
Proof.
  intros Hdata Hv Hdef.
  assert (Hi : (i < length data)%nat)
    by (apply lookup_lt_Some in Hv; by rewrite length_sma in Hv).
  unfold sma in Hv.
  destruct (decide (i + 1 < window)%nat) as [Hwarm|Hfull].
  { rewrite rolling_warm_up in Hv; [congruence | done |].
    unfold close_column. by rewrite !length_fmap. }
  rewrite rolling_full_window in Hv
    by (lia || (unfold close_column; by rewrite length_fmap)).
  injection Hv as <-.
  set (win := take window (drop (i + 1 - window) (close_column data))) in *.
  destruct win as [|q win'] eqn:Ewin; [done|]. rewrite <- Ewin in *.
  rewrite mean_nonempty by (rewrite Ewin; done).
  eexists. split; [done|].
  assert (Hwin : Forall (fun q => (lo <= q <= hi)%Q) win).
  { unfold win, close_column. apply Forall_take, Forall_drop, Forall_fmap.
    exact Hdata. }
  pose proof (Qsum_between lo hi win Hwin) as [H1 H2].
  assert (Hn : (0 < inject_Z (Z.of_nat (length win)))%Q).
  { change 0%Q with (inject_Z 0). rewrite <- Zlt_Qlt.
    rewrite Ewin. simpl. lia. }
  split.
  - apply Qle_shift_div_l; [done|]. lra.
  - apply Qle_shift_div_r; [done|]. lra.
Qed.

(* ===================================================================== *)
(** ** The further facts on sample inputs *)
(* ===================================================================== *)

Lemma closes_between_Forall (lo hi : Q) (data : list PriceBar) :
  closes_between lo hi data = true ->
  Forall (fun b => (lo <= Close b <= hi)%Q) data.
Proof.
  unfold closes_between. induction data as [|b data IH]; simpl.
  - constructor.
  - intros H. apply andb_true_iff in H as [Hb H].
    apply andb_true_iff in Hb as [H1 H2].
    apply Qle_bool_iff in H1, H2. constructor; [by split | by apply IH].
Qed.

Lemma preprocessed_indicators_finite_witness :
  exists r,
    r ∈ preprocess_data sqrt_floor sample_download "AAPL" "1993-02-01" "2024-01-01"
    /\ is_fin (SMA r) /\ is_fin (MACD r).
Proof.
  assert (H : is_Some (head (preprocess_data sqrt_floor sample_download
                               "AAPL" "1993-02-01" "2024-01-01")))
    by by_running.
  destruct H as [r Hr]. apply head_Some_elem_of in Hr.
  destruct (preprocessed_indicators_finite sqrt_floor sample_download
              _ _ _ r Hr) as (H1 & _ & _ & H4 & _).
  exists r. split; [exact Hr|]. split; [exact H1 | exact H4].
Defined.

Lemma rsi_undefined_iff_flat_witness :
  rsi (bars_of flat_closes) 14 !! 13%nat = Some NaN
  <-> forall k, (13 + 1 - 14 <= k <= 13)%nat -> (1 <= k)%nat ->
        (nth k (close_column (bars_of flat_closes)) 0%Q
         == nth (k - 1) (close_column (bars_of flat_closes)) 0%Q)%Q.
Proof.
  apply (rsi_undefined_iff_flat (bars_of flat_closes) 14 13).
  - apply Nat.ltb_lt. reflexivity.
  - apply Nat.leb_le. reflexivity.
  - apply Nat.ltb_lt. vm_compute. reflexivity.
Defined.

Lemma macd_within_price_range_witness :
  exists m s,
    fst (macd (bars_of sample_closes)) !! 5%nat = Some m
    /\ snd (macd (bars_of sample_closes)) !! 5%nat = Some s
    /\ (10 - 21 <= m <= 21 - 10)%Q /\ (10 - 21 <= s <= 21 - 10)%Q.
Proof.
  assert (Hm : is_Some (fst (macd (bars_of sample_closes)) !! 5%nat))
    by by_running.
  assert (Hs : is_Some (snd (macd (bars_of sample_closes)) !! 5%nat))
    by by_running.
  destruct Hm as [m Hm], Hs as [s Hs].
  assert (Hdata : closes_between 10 21 (bars_of sample_closes) = true)
    by (vm_compute; reflexivity).
  destruct (macd_within_price_range (bars_of sample_closes) 10 21 5 m s
              (closes_between_Forall _ _ _ Hdata) Hm Hs) as [H1 H2].
  exists m, s. split; [exact Hm|]. split; [exact Hs|].
  split; [exact H1 | exact H2].
Defined.

Lemma sma_within_price_range_witness :
  exists m,
    sma (bars_of sample_closes) 14 !! 13%nat = Some (Fin m)
    /\ (10 <= m <= 21)%Q.
Proof.
  assert (Hv : is_Some (sma (bars_of sample_closes) 14 !! 13%nat))
    by by_running.
  destruct Hv as [v Hv].
  assert (Hdef : v <> NaN).
  { assert (Hn : isna <$> sma (bars_of sample_closes) 14 !! 13%nat
                 = Some false) by (vm_compute; reflexivity).
    rewrite Hv in Hn. intros ->. discriminate. }
  assert (Hdata : closes_between 10 21 (bars_of sample_closes) = true)
    by (vm_compute; reflexivity).
  destruct (sma_within_price_range (bars_of sample_closes) 14 13 10 21 v
              (closes_between_Forall _ _ _ Hdata) Hv Hdef) as (m & -> & Hm).
  exists m. split; [exact Hv | exact Hm].
Defined.

Lemma main_needs_two_rows_witness :
  main sqrt_floor too_short_download sample_compound "2024-01-01"
       sample_permutation "AAPL" "good news" = None.
Proof.
  apply (proj2 (main_needs_two_rows sqrt_floor too_short_download
                  sample_compound "2024-01-01" sample_permutation
                  "AAPL" "good news")).
  apply Nat.ltb_lt. vm_compute. reflexivity.
Defined.


Lemma join_keeps_every_row_witness :
  exists L,
    sample_main = Some L
    /\ stock <$> merged_data L
       = preprocess_data sqrt_floor sample_download "AAPL" "1993-02-01"
                         "2024-01-01".
Proof.
  assert (H : is_Some sample_main) by by_running.
  destruct H as [L HL].
  assert (Hnd : NoDup (Date <$> sample_download "AAPL" "1993-02-01"
                                               "2024-01-01"))
    by by_running.
  destruct (join_keeps_every_row sqrt_floor sample_download
              sample_compound "2024-01-01" sample_permutation
              "AAPL" "good news" L Hnd HL) as (H1 & _).
  exists L. split; [exact HL | exact H1].
Defined.

Lemma sentiment_column_is_constant_witness :
  exists L,
    sample_main = Some L
    /\ Forall (fun row => exists s, row !! 0%nat = Some s /\ (s == 0)%Q)
              (values (X L)).
Proof.
  assert (H : is_Some sample_main) by by_running.
  destruct H as [L HL].
  destruct (sentiment_column_is_constant sqrt_floor sample_download
              sample_compound "2024-01-01" sample_permutation
              sample_grid_search "AAPL" "good news" L HL) as (H1 & _).
  exists L. split; [exact HL | exact H1].
Defined.

Lemma split_partitions_rows_and_labels_witness :
  exists L,
    sample_main = Some L
    /\ zip (values (X_test L)) (y_test L)
       ++ zip (values (X_train L)) (y_train L)
       ≡ₚ zip (values (X L)) (y L).
Proof.
  assert (H : is_Some sample_main) by by_running.
  destruct H as [L HL].
  destruct (split_partitions_rows_and_labels sample_permutation sqrt_floor
              sample_download sample_compound "2024-01-01"
              "AAPL" "good news" L (reflexivity _) HL) as (H1 & _).
  exists L. split; [exact HL | exact H1].
Defined.


Lemma prediction_row_rescaled_witness :
  exists L rep raw r,
    sample_main = Some L
    /\ loop_body sample_compound sample_grid_search L "good news"
                 "Logistic Regression" = Some rep
    /\ feature_matrix (merged_data L) = Some raw /\ r ∈ raw
    /\ last (values (X_test L)) = Some (transform_row (scaler L) r).
Proof.
  assert (H : is_Some (sample_main ≫= fun L =>
                 loop_body sample_compound sample_grid_search L "good news"
                           "Logistic Regression")) by by_running.
  destruct sample_main as [L|] eqn:HL; [|by destruct H].
  destruct H as [rep Hrep]. change (Some L ≫= ?f) with (f L) in Hrep.
  destruct (prediction_row_rescaled sqrt_floor sample_download
              sample_compound "2024-01-01" sample_permutation
              sample_grid_search "AAPL" "good news" "good news"
              "Logistic Regression" L rep HL Hrep)
    as (raw & r & v & Hraw & Hr & Hlast & _).
  exists L, rep, raw, r. split; [reflexivity|]. split; [exact Hrep|].
  split; [exact Hraw|]. split; [exact Hr | exact Hlast].
Defined.
